(** * Pull-request coordination layer and local ref formatting

    A shallow embedding of

    - [app/src/lib/stores/pull-request-coordinator.ts]: the class
      [PullRequestCoordinator] and its helper
      [findRepositoriesForGitHubRepository];
    - [app/src/lib/git/refs.ts]: the pure function [formatAsLocalRef];
    - the component [CommitListItem]: its update test, its context menu and
      the renderers of its indicators.

    The coordinator is a stateful object that talks to three collaborators
    (the repositories store, the pull request store and the pull request
    updater) and to the callbacks of its consumers.  Its methods are written
    in a small state monad over a [World]; every call that leaves the
    coordinator is appended to a trace, so that properties such as "the
    callback is invoked once per match" or "the first updater is stopped
    exactly once" are statements about that trace. *)

From Stdlib Require Import ZArith String List Bool Lia.
From stdpp Require Import base tactics option list.
Import ListNotations.

Local Open Scope Z_scope.
Local Open Scope string_scope.
Local Open Scope list_scope.

(** ** Data model *)

(** Modelled from the spec: the class [GitHubRepository] of
    [models/github-repository] is imported by the coordinator but not part of
    the sources at hand.  The coordinator reads two of its members: the
    numeric database identifier [dbID] and the nullable [parent] (the upstream
    of a fork).  [ghName] stands for the remaining members. *)
#[local] Set Warnings "-register-all".
Inductive GitHubRepository : Type := mkGitHubRepository {
  dbID : Z;
  ghName : string;
  parent : option GitHubRepository
}.

(** Modelled from the spec: the class [Repository] of [models/repository], a
    local clone with its own identifier and path.  TypeScript declares
    [RepositoryWithGitHubRepository] as [Repository] with the member
    [gitHubRepository] narrowed from [GitHubRepository | null] to
    [GitHubRepository]; the record is therefore indexed by the type of that
    member. *)
Record RepositoryOf (G : Type) : Type := mkRepository {
  id : Z;
  path : string;
  gitHubRepository : G
}.
Arguments mkRepository {G} _ _ _.
Arguments id {G} _.
Arguments path {G} _.
Arguments gitHubRepository {G} _.

Definition Repository : Type := RepositoryOf (option GitHubRepository).
Definition RepositoryWithGitHubRepository : Type := RepositoryOf GitHubRepository.

(** Modelled from the spec: the type guard [isRepositoryWithGitHubRepository]
    of [models/repository], true of the repositories that carry a GitHub
    repository. *)
Definition isRepositoryWithGitHubRepository (r : Repository) : bool :=
  match gitHubRepository r with
  | Some _ => true
  | None => false
  end.

(** What the type guard gives the type checker: the same object, seen at the
    narrowed type. *)
Definition narrowRepository (r : Repository) : option RepositoryWithGitHubRepository :=
  match gitHubRepository r with
  | Some gh => Some (mkRepository (id r) (path r) gh)
  | None => None
  end.

(** The narrowed object seen again as a plain [Repository]. *)
Definition asRepository (r : RepositoryWithGitHubRepository) : Repository :=
  mkRepository (id r) (path r) (Some (gitHubRepository r)).

(** [allRepositories.filter(isRepositoryWithGitHubRepository)]: a filter
    whose predicate is a type guard returns the array at the narrowed type. *)
Fixpoint filterWithGitHubRepository (allRepositories : list Repository)
  : list RepositoryWithGitHubRepository :=
  match allRepositories with
  | [] => []
  | r :: rest =>
      if isRepositoryWithGitHubRepository r
      then match narrowRepository r with
           | Some r' => r' :: filterWithGitHubRepository rest
           | None => filterWithGitHubRepository rest
           end
      else filterWithGitHubRepository rest
  end.

(** Modelled from the spec: a pull request is an opaque record for the
    coordinator, and so is an account. *)
Record PullRequest : Type := mkPullRequest {
  pullRequestNumber : Z;
  title : string
}.

Record Account : Type := mkAccount {
  login : string;
  endpoint : string
}.

(** ** [findRepositoriesForGitHubRepository] (lines 127-138) *)

(** The arrow function handed to [filter]:
    [r.gitHubRepository.dbID === dbID ||
     (r.gitHubRepository.parent !== null &&
      r.gitHubRepository.parent.dbID === dbID)]. *)
Definition matchesGitHubRepository (dbID' : Z) (r : RepositoryWithGitHubRepository) : bool :=
  Z.eqb (dbID (gitHubRepository r)) dbID'
  || match parent (gitHubRepository r) with
     | Some p => Z.eqb (dbID p) dbID'
     | None => false
     end.

Definition findRepositoriesForGitHubRepository
    (gitHubRepository : GitHubRepository)
    (repositories : list RepositoryWithGitHubRepository)
  : list RepositoryWithGitHubRepository :=
  let dbID' := dbID gitHubRepository in
  List.filter (matchesGitHubRepository dbID') repositories.

(** The association of the specification, in its own words: a remote
    repository [R] is "for" a local repository [L] when [L]'s remote has
    [R]'s [dbID], or [L]'s remote has a non-null parent with [R]'s [dbID]. *)
Definition isFor (R : GitHubRepository) (L : RepositoryWithGitHubRepository) : Prop :=
  dbID (gitHubRepository L) = dbID R
  \/ (parent (gitHubRepository L) <> None
      /\ exists p, parent (gitHubRepository L) = Some p /\ dbID p = dbID R).

#[global] Instance isFor_dec R L : Decision (isFor R L).
Proof.
  unfold isFor.
  destruct (decide (dbID (gitHubRepository L) = dbID R)) as [Heq|Hne];
    [left; by left|].
  destruct (parent (gitHubRepository L)) as [p|].
  - destruct (decide (dbID p = dbID R)) as [Hp|Hp].
    + left. right. split; [done|]. by exists p.
    + right. intros [H|[_ [q [Hq H]]]]; [done|]. by injection Hq as ->.
  - right. intros [H|[H _]]; done.
Defined.

(** ** [formatAsLocalRef] (refs.ts, lines 14-24) *)

Definition formatAsLocalRef (name : string) : string :=
  if String.prefix "heads/" name
  then "refs/" ++ name
  else "refs/heads/" ++ name.

(** ** Collaborators and the world the coordinator runs in *)

(** A [PullRequestUpdater] is an object: two updaters built from the same
    arguments are different objects.  An updater is known by its reference,
    handed out by [new]. *)
Definition UpdaterRef : Type := nat.

(** What a callback is called with besides the repository. *)
Inductive Payload : Type :=
| PullRequestsPayload (pullRequests : list PullRequest)
| IsLoadingPayload (isLoadingPullRequests : bool).

(** The functions [fn] that consumers register are opaque to the
    coordinator.  A callback is known by its identity and by the arguments
    for which a call of it throws instead of returning; calling it is an
    effect recorded in the trace. *)
Record Callback : Type := mkCallback {
  callbackId : nat;
  throwsFor : RepositoryWithGitHubRepository -> Payload -> bool
}.

(** How a call ends: it returns, or it throws. *)
Inductive Completion : Type :=
| Normal
| Throw.

(** What [refreshPullRequests] of the store hands back: a promise, settled
    one way or the other. *)
Inductive Promise : Type :=
| Fulfilled
| Rejected (reason : string).

(** Modelled from the spec: the two request operations of the pull request
    store ([stores/index], not part of the sources at hand),
    [refreshPullRequests(remoteRepo, account) -> async] and
    [getAll(remoteRepo) -> PullRequest[]].  Nothing is assumed about what they
    answer.  Nor is anything assumed about what the store does when one of
    the listeners of an event throws: [store_rethrows] says whether the
    exception leaves the store's dispatch, so that the listeners after it are
    not run, or the store catches it and goes on with the next listener. *)
Record PullRequestStore : Type := mkPullRequestStore {
  store_refreshPullRequests : GitHubRepository -> Account -> Promise;
  store_getAll : GitHubRepository -> list PullRequest;
  store_rethrows : bool
}.

(** Every call that leaves the coordinator: the three subscriptions (lines
    30, 44 and 64), the construction, start and stop of an updater, the two
    requests to the pull request store, and the calls of the consumers'
    callbacks. *)
Inductive Effect : Type :=
| RepositoriesStoreOnDidUpdate
| StoreOnPullRequestsChanged (fn : Callback)
| StoreOnIsLoadingPullRequests (fn : Callback)
| NewPullRequestUpdater (u : UpdaterRef) (gh : GitHubRepository) (account : Account)
| UpdaterStart (u : UpdaterRef)
| UpdaterStop (u : UpdaterRef)
| StoreRefreshPullRequests (gh : GitHubRepository) (account : Account)
| StoreGetAll (gh : GitHubRepository)
| CallPullRequestsChanged (fn : Callback) (repository : RepositoryWithGitHubRepository)
    (pullRequests : list PullRequest)
| CallIsLoadingPullRequests (fn : Callback) (repository : RepositoryWithGitHubRepository)
    (isLoadingPullRequests : bool).

(** The two private members of the class (lines 20-23), and the store passed
    to the constructor. *)
Record PullRequestCoordinator : Type := mkCoordinator {
  pullRequestStore : PullRequestStore;
  currentPullRequestUpdater : option UpdaterRef;
  repositories : list RepositoryWithGitHubRepository
}.

(** The coordinator, the listeners that the pull request store holds on its
    two events (in the order of their registration), the next free updater
    reference and the trace of effects so far. *)
Record World : Type := mkWorld {
  coordinator : PullRequestCoordinator;
  pullRequestsChangedListeners : list Callback;
  isLoadingListeners : list Callback;
  nextUpdater : UpdaterRef;
  trace : list Effect
}.

(** *** The state monad *)

Definition M (A : Type) : Type := World -> A * World.

Definition ret {A : Type} (a : A) : M A := fun w => (a, w).

Definition bind {A B : Type} (m : M A) (k : A -> M B) : M B :=
  fun w => let (a, w') := m w in k a w'.

Declare Scope coordinator_scope.
Delimit Scope coordinator_scope with co.
Notation "x <- m ;; k" := (bind m (fun x => k))
  (at level 100, m at next level, right associativity) : coordinator_scope.
Notation "m ;;; k" := (bind m (fun _ => k))
  (at level 100, right associativity) : coordinator_scope.
Local Open Scope coordinator_scope.

Definition exec {A : Type} (m : M A) (w : World) : World := snd (m w).
Definition result {A : Type} (m : M A) (w : World) : A := fst (m w).

(** Reading [this]. *)
Definition this : M PullRequestCoordinator := fun w => (coordinator w, w).

(** Appending one effect to the trace. *)
Definition emit (e : Effect) : M unit :=
  fun w => (tt, mkWorld (coordinator w) (pullRequestsChangedListeners w)
                  (isLoadingListeners w) (nextUpdater w) (trace w ++ [e])).

(** [this.currentPullRequestUpdater = u]. *)
Definition setCurrentPullRequestUpdater (u : option UpdaterRef) : M unit :=
  fun w => (tt, mkWorld
                  (mkCoordinator (pullRequestStore (coordinator w)) u
                     (repositories (coordinator w)))
                  (pullRequestsChangedListeners w) (isLoadingListeners w)
                  (nextUpdater w) (trace w)).

(** [this.repositories = rs]. *)
Definition setRepositories (rs : list RepositoryWithGitHubRepository) : M unit :=
  fun w => (tt, mkWorld
                  (mkCoordinator (pullRequestStore (coordinator w))
                     (currentPullRequestUpdater (coordinator w)) rs)
                  (pullRequestsChangedListeners w) (isLoadingListeners w)
                  (nextUpdater w) (trace w)).

(** [new PullRequestUpdater(gh, account, store)]: a fresh reference. *)
Definition newPullRequestUpdater (gh : GitHubRepository) (account : Account) : M UpdaterRef :=
  fun w => (nextUpdater w,
            mkWorld (coordinator w) (pullRequestsChangedListeners w)
              (isLoadingListeners w) (S (nextUpdater w))
              (trace w ++ [NewPullRequestUpdater (nextUpdater w) gh account])).

(** Whether the call that an effect records throws. *)
Definition effectThrows (e : Effect) : bool :=
  match e with
  | CallPullRequestsChanged fn repository pullRequests =>
      throwsFor fn repository (PullRequestsPayload pullRequests)
  | CallIsLoadingPullRequests fn repository isLoadingPullRequests =>
      throwsFor fn repository (IsLoadingPayload isLoadingPullRequests)
  | _ => false
  end.

(** Calling a consumer's callback: the call is recorded, and it returns or
    throws. *)
Definition call (e : Effect) : M Completion :=
  emit e ;;;
  ret (if effectThrows e then Throw else Normal).

(** [for (const x of xs) body(x)]: an exception thrown by the body leaves
    the loop. *)
Fixpoint forEach {A : Type} (xs : list A) (body : A -> M Completion) : M Completion :=
  match xs with
  | [] => ret Normal
  | x :: rest =>
      c <- body x ;;
      match c with
      | Normal => forEach rest body
      | Throw => ret Throw
      end
  end.

(** ** The class [PullRequestCoordinator] (lines 19-117) *)

(** The constructor (lines 25-35): no updater, an empty array of
    repositories, and one update handler registered with the repositories
    store. *)
Definition newPullRequestCoordinator (pullRequestStore : PullRequestStore) : World :=
  mkWorld (mkCoordinator pullRequestStore None []) [] [] 0%nat
    [RepositoriesStoreOnDidUpdate].

(** The update handler of lines 30-34, run by the repositories store with the
    full list of repositories whenever that list changes. *)
Definition onDidUpdate (allRepositories : list Repository) : M unit :=
  setRepositories (filterWithGitHubRepository allRepositories).

(** The arrow function of lines 45-53, which the coordinator hands to the
    store for the consumer function [fn]. *)
Definition pullRequestsChangedListener (fn : Callback)
    (ghRepo : GitHubRepository) (pullRequests : list PullRequest) : M Completion :=
  c <- this ;;
  let repositories := findRepositoriesForGitHubRepository ghRepo (repositories c) in
  forEach repositories (fun repo => call (CallPullRequestsChanged fn repo pullRequests)).

(** The arrow function of lines 65-73; its second parameter, named
    [pullRequests] in the source, is the loading flag. *)
Definition isLoadingPullRequestsListener (fn : Callback)
    (ghRepo : GitHubRepository) (pullRequests : bool) : M Completion :=
  c <- this ;;
  let repositories := findRepositoriesForGitHubRepository ghRepo (repositories c) in
  forEach repositories (fun repo => call (CallIsLoadingPullRequests fn repo pullRequests)).

(** A [Disposable] is known by the position of its registration. *)
Definition Disposable : Type := nat.

(** Modelled from the spec: what the pull request store does when a
    listener is registered with it; it keeps the listener, after those it has
    already, and hands back a disposable. *)
Definition storeAddPullRequestsChangedListener (fn : Callback) : M Disposable :=
  fun w => (List.length (pullRequestsChangedListeners w),
            mkWorld (coordinator w) (pullRequestsChangedListeners w ++ [fn])
              (isLoadingListeners w) (nextUpdater w) (trace w)).

Definition storeAddIsLoadingListener (fn : Callback) : M Disposable :=
  fun w => (List.length (isLoadingListeners w),
            mkWorld (coordinator w) (pullRequestsChangedListeners w)
              (isLoadingListeners w ++ [fn]) (nextUpdater w) (trace w)).

(** [onPullRequestsChanged(fn)] (lines 38-55): the listener for [fn] is
    registered with the store, by a call on the store, whose disposable is
    returned. *)
Definition onPullRequestsChanged (fn : Callback) : M Disposable :=
  emit (StoreOnPullRequestsChanged fn) ;;;
  storeAddPullRequestsChangedListener fn.

(** [onIsLoadingPullRequests(fn)] (lines 58-75). *)
Definition onIsLoadingPullRequests (fn : Callback) : M Disposable :=
  emit (StoreOnIsLoadingPullRequests fn) ;;;
  storeAddIsLoadingListener fn.

(** [refreshPullRequests(repository, account)] (lines 78-86). *)
Definition refreshPullRequests (repository : RepositoryWithGitHubRepository)
    (account : Account) : M Promise :=
  c <- this ;;
  emit (StoreRefreshPullRequests (gitHubRepository repository) account) ;;;
  ret (store_refreshPullRequests (pullRequestStore c) (gitHubRepository repository) account).

(** [getAllPullRequests(repository)] (lines 89-91). *)
Definition getAllPullRequests (repository : RepositoryWithGitHubRepository)
  : M (list PullRequest) :=
  c <- this ;;
  emit (StoreGetAll (gitHubRepository repository)) ;;;
  ret (store_getAll (pullRequestStore c) (gitHubRepository repository)).

(** [stopPullRequestUpdater()] (lines 111-116). *)
Definition stopPullRequestUpdater : M unit :=
  c <- this ;;
  match currentPullRequestUpdater c with
  | Some u =>
      emit (UpdaterStop u) ;;;
      setCurrentPullRequestUpdater None
  | None => ret tt
  end.

(** [startPullRequestUpdater(repository, account)] (lines 94-108). *)
Definition startPullRequestUpdater (repository : RepositoryWithGitHubRepository)
    (account : Account) : M unit :=
  c <- this ;;
  match currentPullRequestUpdater c with
  | Some _ => stopPullRequestUpdater
  | None => ret tt
  end ;;;
  u <- newPullRequestUpdater (gitHubRepository repository) account ;;
  setCurrentPullRequestUpdater (Some u) ;;;
  c' <- this ;;
  match currentPullRequestUpdater c' with
  | Some u' => emit (UpdaterStart u')
  | None => ret tt
  end.

(** *** The events of the store *)

(** Modelled from the spec: the pull request store pushes its two events,
    keyed by a remote repository, to the listeners registered with it; they
    run one after the other, in the order of their registration.  When a
    listener throws, the store either lets the exception through, which ends
    the dispatch, or catches it and runs the listeners that are left. *)
Fixpoint dispatch (rethrows : bool) (fns : list Callback)
    (listener : Callback -> M Completion) : M Completion :=
  match fns with
  | [] => ret Normal
  | fn :: rest =>
      c <- listener fn ;;
      match c with
      | Normal => dispatch rethrows rest listener
      | Throw => if rethrows then ret Throw else dispatch rethrows rest listener
      end
  end.

Definition storePullRequestsChanged (ghRepo : GitHubRepository)
    (pullRequests : list PullRequest) : M Completion :=
  fun w =>
    dispatch (store_rethrows (pullRequestStore (coordinator w)))
      (pullRequestsChangedListeners w)
      (fun fn => pullRequestsChangedListener fn ghRepo pullRequests) w.

Definition storeIsLoadingPullRequests (ghRepo : GitHubRepository)
    (isLoading : bool) : M Completion :=
  fun w =>
    dispatch (store_rethrows (pullRequestStore (coordinator w)))
      (isLoadingListeners w)
      (fun fn => isLoadingPullRequestsListener fn ghRepo isLoading) w.

(** *** Everything that can happen to a coordinator *)

Inductive Op : Type :=
| RepositoriesDidUpdate (allRepositories : list Repository)
| OnPullRequestsChanged (fn : Callback)
| OnIsLoadingPullRequests (fn : Callback)
| StorePullRequestsChanged (ghRepo : GitHubRepository) (pullRequests : list PullRequest)
| StoreIsLoadingPullRequests (ghRepo : GitHubRepository) (isLoading : bool)
| RefreshPullRequests (repository : RepositoryWithGitHubRepository) (account : Account)
| GetAllPullRequests (repository : RepositoryWithGitHubRepository)
| StartPullRequestUpdater (repository : RepositoryWithGitHubRepository) (account : Account)
| StopPullRequestUpdater.

Definition step (w : World) (op : Op) : World :=
  match op with
  | RepositoriesDidUpdate allRepositories => exec (onDidUpdate allRepositories) w
  | OnPullRequestsChanged fn => exec (onPullRequestsChanged fn) w
  | OnIsLoadingPullRequests fn => exec (onIsLoadingPullRequests fn) w
  | StorePullRequestsChanged ghRepo prs => exec (storePullRequestsChanged ghRepo prs) w
  | StoreIsLoadingPullRequests ghRepo b => exec (storeIsLoadingPullRequests ghRepo b) w
  | RefreshPullRequests repository account => exec (refreshPullRequests repository account) w
  | GetAllPullRequests repository => exec (getAllPullRequests repository) w
  | StartPullRequestUpdater repository account =>
      exec (startPullRequestUpdater repository account) w
  | StopPullRequestUpdater => exec stopPullRequestUpdater w
  end.

Definition run (ops : list Op) (w : World) : World := fold_left step ops w.

Definition isRepositoriesDidUpdate (op : Op) : bool :=
  match op with
  | RepositoriesDidUpdate _ => true
  | _ => false
  end.

(** The list delivered by the last update of the repositories store, if
    there was one. *)
Definition lastUpdate (ops : list Op) : list Repository :=
  fold_left (fun acc op =>
               match op with
               | RepositoriesDidUpdate allRepositories => allRepositories
               | _ => acc
               end) ops [].

(** *** Reading the trace *)

(** The updater an effect is an interaction with. *)
Definition effectUpdater (e : Effect) : option UpdaterRef :=
  match e with
  | NewPullRequestUpdater u _ _ => Some u
  | UpdaterStart u => Some u
  | UpdaterStop u => Some u
  | _ => None
  end.

(** The local repository a callback is invoked for. *)
Definition effectRepository (e : Effect) : option RepositoryWithGitHubRepository :=
  match e with
  | CallPullRequestsChanged _ repository _ => Some repository
  | CallIsLoadingPullRequests _ repository _ => Some repository
  | _ => None
  end.

Definition isStopOf (u : UpdaterRef) (e : Effect) : bool :=
  match e with
  | UpdaterStop v => Nat.eqb v u
  | _ => false
  end.

Definition isStartOf (u : UpdaterRef) (e : Effect) : bool :=
  match e with
  | UpdaterStart v => Nat.eqb v u
  | _ => false
  end.

Definition countStops (u : UpdaterRef) (t : list Effect) : nat :=
  List.length (List.filter (isStopOf u) t).

Definition countStarts (u : UpdaterRef) (t : list Effect) : nat :=
  List.length (List.filter (isStartOf u) t).

(** Modelled from the spec: a [PullRequestUpdater]
    ([stores/helpers/pull-request-updater], not part of the sources at hand)
    polls from its [start()] until its [stop()], and [stop()] is idempotent.
    [liveUpdaters t] are the updaters that are polling after the effects
    [t]. *)
Definition updaterStep (live : list UpdaterRef) (e : Effect) : list UpdaterRef :=
  match e with
  | UpdaterStart u => u :: List.filter (fun v => negb (Nat.eqb v u)) live
  | UpdaterStop u => List.filter (fun v => negb (Nat.eqb v u)) live
  | _ => live
  end.

Definition liveUpdaters (t : list Effect) : list UpdaterRef :=
  fold_left updaterStep t [].

(** [w] with the effects [es] appended to its trace and nothing else
    changed. *)
Definition appendTrace (w : World) (es : list Effect) : World :=
  mkWorld (coordinator w) (pullRequestsChangedListeners w)
    (isLoadingListeners w) (nextUpdater w) (trace w ++ es).

(** The calls one listener makes for one event. *)
Definition callsPullRequestsChanged (fn : Callback) (prs : list PullRequest)
    (rs : list RepositoryWithGitHubRepository) : list Effect :=
  map (fun r => CallPullRequestsChanged fn r prs) rs.

Definition callsIsLoadingPullRequests (fn : Callback) (b : bool)
    (rs : list RepositoryWithGitHubRepository) : list Effect :=
  map (fun r => CallIsLoadingPullRequests fn r b) rs.

(** The calls that are made of the calls [es] in turn when an exception
    ends the turn: those up to the first that throws, that one included. *)
Fixpoint untilThrow (es : list Effect) : list Effect :=
  match es with
  | [] => []
  | e :: rest => e :: (if effectThrows e then [] else untilThrow rest)
  end.

(** How making the calls [es] in turn ends. *)
Definition completion (es : list Effect) : Completion :=
  if existsb effectThrows es then Throw else Normal.

(** The calls that are made when the store runs listeners in turn, the
    listeners being given by the calls each would make if none threw. *)
Fixpoint dispatched (rethrows : bool) (ess : list (list Effect)) : list Effect :=
  match ess with
  | [] => []
  | es :: rest =>
      untilThrow es
      ++ (if rethrows && existsb effectThrows es then []
          else dispatched rethrows rest)
  end.

Fixpoint dispatchCompletion (rethrows : bool) (ess : list (list Effect)) : Completion :=
  match ess with
  | [] => Normal
  | es :: rest =>
      if rethrows && existsb effectThrows es then Throw
      else dispatchCompletion rethrows rest
  end.

(** The callbacks registered by the calls of [onPullRequestsChanged] and of
    [onIsLoadingPullRequests] among [ops], in the order of the calls. *)
Definition registeredPullRequestsChanged (ops : list Op) : list Callback :=
  omap (fun op => match op with
                  | OnPullRequestsChanged fn => Some fn
                  | _ => None
                  end) ops.

Definition registeredIsLoadingPullRequests (ops : list Op) : list Callback :=
  omap (fun op => match op with
                  | OnIsLoadingPullRequests fn => Some fn
                  | _ => None
                  end) ops.

(** The local repositories that the callbacks in [t] were invoked for, in
    the order of the invocations. *)
Definition notified (t : list Effect) : list RepositoryWithGitHubRepository :=
  omap effectRepository t.

(** The effects that running [m] in [w] adds to the trace. *)
Definition emitted {A : Type} (m : M A) (w : World) : list Effect :=
  drop (List.length (trace w)) (trace (exec m w)).

(** Effects that are no interaction with any updater. *)
Definition quiet (es : list Effect) : Prop :=
  Forall (fun e => effectUpdater e = None) es.

(** No update of the repositories store among [ops]. *)
Definition noRepositoriesUpdate (ops : list Op) : Prop :=
  Forall (fun op => isRepositoriesDidUpdate op = false) ops.

(** What holds of the updaters in every world a coordinator can reach:
    references in use are below the next free one, the live updaters are the
    current one (if any), and at no point of the trace was more than one
    updater live. *)
Record updatersConsistent (w : World) : Prop := mkUpdatersConsistent {
  uc_trace :
    Forall (fun e => forall u, effectUpdater e = Some u -> (u < nextUpdater w)%nat)
      (trace w);
  uc_current :
    forall u, currentPullRequestUpdater (coordinator w) = Some u ->
              (u < nextUpdater w)%nat;
  uc_live :
    liveUpdaters (trace w)
    = match currentPullRequestUpdater (coordinator w) with
      | Some u => [u]
      | None => []
      end;
  uc_points :
    forall n, (List.length (liveUpdaters (take n (trace w))) <= 1)%nat
}.

(** ** Sample data *)

Definition desktopUpstream : GitHubRepository :=
  mkGitHubRepository 42 "desktop/desktop" None.
Definition desktopFork : GitHubRepository :=
  mkGitHubRepository 7 "contributor/desktop" (Some desktopUpstream).
Definition gitMirror : GitHubRepository :=
  mkGitHubRepository 9 "git/git" None.

Definition cloneU : RepositoryWithGitHubRepository :=
  mkRepository 1 "/src/desktop" desktopUpstream.
Definition cloneF : RepositoryWithGitHubRepository :=
  mkRepository 2 "/src/desktop-fork" desktopFork.
Definition cloneG : RepositoryWithGitHubRepository :=
  mkRepository 3 "/src/git" gitMirror.
Definition scratch : Repository :=
  mkRepository 4 "/src/scratch" None.

Definition pr101 : PullRequest := mkPullRequest 101 "Fix the ref parser".
Definition pr102 : PullRequest := mkPullRequest 102 "Update the docs".

Definition octocat : Account := mkAccount "octocat" "https://api.github.com".

Definition sampleStore : PullRequestStore :=
  mkPullRequestStore
    (fun gh _ => if Z.eqb (dbID gh) 42 then Fulfilled else Rejected "not found")
    (fun gh => if Z.eqb (dbID gh) 42 then [pr101; pr102] else [])
    true.

(** Two callbacks that always return, one that throws when it is called for
    the clone of the upstream, and one that does so only when it is called
    with a loading flag. *)
Definition onChanged : Callback := mkCallback 0 (fun _ _ => false).
Definition onLoading : Callback := mkCallback 1 (fun _ _ => false).
Definition touchy : Callback := mkCallback 2 (fun r _ => Z.eqb (id r) 1).


(** A coordinator that has seen one update of the repositories store and two
    registrations. *)
Definition sampleWorld : World :=
  run [RepositoriesDidUpdate [asRepository cloneG; asRepository cloneU; scratch;
                              asRepository cloneF];
       OnPullRequestsChanged onChanged;
       OnIsLoadingPullRequests onLoading]
      (newPullRequestCoordinator sampleStore).


(** A coordinator with the throwing callback registered and another
    callback registered after it. *)
Definition touchyWorld : World :=
  run [RepositoriesDidUpdate [asRepository cloneU; asRepository cloneF];
       OnPullRequestsChanged touchy;
       OnPullRequestsChanged onChanged]
      (newPullRequestCoordinator sampleStore).


(** ** More ways of reading events and traces *)

(** The two events that act on the updater. *)
Definition isUpdaterOp (op : Op) : bool :=
  match op with
  | StartPullRequestUpdater _ _ => true
  | StopPullRequestUpdater => true
  | _ => false
  end.

(** The calls on the pull request store: its two subscriptions and its two
    requests. *)
Definition isStoreCall (e : Effect) : bool :=
  match e with
  | StoreOnPullRequestsChanged _ => true
  | StoreOnIsLoadingPullRequests _ => true
  | StoreRefreshPullRequests _ _ => true
  | StoreGetAll _ => true
  | _ => false
  end.

(** The call on the store that a call of a coordinator method stands for,
    if any. *)
Definition storeCall (op : Op) : option Effect :=
  match op with
  | OnPullRequestsChanged fn => Some (StoreOnPullRequestsChanged fn)
  | OnIsLoadingPullRequests fn => Some (StoreOnIsLoadingPullRequests fn)
  | RefreshPullRequests repository account =>
      Some (StoreRefreshPullRequests (gitHubRepository repository) account)
  | GetAllPullRequests repository =>
      Some (StoreGetAll (gitHubRepository repository))
  | _ => None
  end.

Definition isNewOf (u : UpdaterRef) (e : Effect) : bool :=
  match e with
  | NewPullRequestUpdater v _ _ => Nat.eqb v u
  | _ => false
  end.

Definition countNews (u : UpdaterRef) (t : list Effect) : nat :=
  List.length (List.filter (isNewOf u) t).

Definition isNew (e : Effect) : bool :=
  match e with
  | NewPullRequestUpdater _ _ _ => true
  | _ => false
  end.

(** How often an updater has been built, started and stopped so far. *)
Definition updaterCounts (w : World) (u : UpdaterRef) : Prop :=
  countNews u (trace w) = (if decide (u < nextUpdater w)%nat then 1 else 0)%nat
  /\ countStarts u (trace w) = (if decide (u < nextUpdater w)%nat then 1 else 0)%nat
  /\ countStops u (trace w)
     = (if decide ((u < nextUpdater w)%nat
                   /\ currentPullRequestUpdater (coordinator w) <> Some u)
        then 1 else 0)%nat.

(** * The commit list item

    Of the React component [CommitListItem]: [shouldComponentUpdate], the
    context menu with the methods its items run, and the two renderers of
    the indicators of a row, [renderUnpushedIndicator] and
    [renderCommitListItemTags].  The state of the component, which its
    constructor and [componentWillReceiveProps] compute, and [render], which
    reads it, are not modelled.  What the component imports is taken as
    given: the build constant and the feature flag, the endpoint of
    GitHub.com, the [endpoint] of a GitHub repository and the comparison
    [arrayEquals] make up an [Environment]; the component [Octicon] appears
    as an element of that name. *)
Module CommitListItem.

(** The members of [Commit] that the component reads; [otherMembers] stands
    for those it only passes on with the commit. *)
Record Commit : Type := mkCommit {
  sha : string;
  summary : string;
  authorDate : Z;
  tags : list string;
  otherMembers : list string
}.

(** A map of GitHub users is opaque to the component. *)
Definition GitHubUsers : Type := list (string * string).

(** The functions passed as props are known by their identity. *)
Definition Handler : Type := nat.

(** [ICommitProps] (lines 21-32); an optional member is absent or present. *)
Record ICommitProps : Type := mkProps {
  gitHubRepository : option GitHubRepository;
  commit : Commit;
  emoji : list (string * string);
  isLocal : bool;
  onRevertCommit : option Handler;
  onViewCommitOnGitHub : option Handler;
  onCreateTag : option Handler;
  gitHubUsers : option GitHubUsers;
  showUnpushedIndicator : bool;
  unpushedIndicatorTitle : option string
}.

Record Environment : Type := mkEnvironment {
  __DARWIN__ : bool;
  enableGitTagsCreation : bool;
  getDotComAPIEndpoint : string;
  endpoint : GitHubRepository -> string;
  arrayEquals : list string -> list string -> bool
}.

(** *** [shouldComponentUpdate] (lines 102-109) *)

(** [===] on two values that are a string or [undefined]. *)
Definition strictEqualsOptional (x y : option string) : bool :=
  match x, y with
  | Some a, Some b => String.eqb a b
  | None, None => true
  | _, _ => false
  end.

(** [x !== undefined], and the truthiness of an object or [null]. *)
Definition isPresent {A : Type} (x : option A) : bool :=
  match x with
  | Some _ => true
  | None => false
  end.

Definition shouldComponentUpdate (env : Environment)
    (props nextProps : ICommitProps) : bool :=
  negb (String.eqb (sha (commit props)) (sha (commit nextProps)))
  || negb (Bool.eqb (showUnpushedIndicator props) (showUnpushedIndicator nextProps))
  || negb (strictEqualsOptional (unpushedIndicatorTitle props)
             (unpushedIndicatorTitle nextProps))
  || negb (arrayEquals env (tags (commit props)) (tags (commit nextProps))).

(** *** The indicators of a row *)

(** The values given to elements as attributes. *)
Inductive JSValue : Type :=
| VString (s : string)
| VNumber (n : Z)
| VUndefined
| VSymbol (name : string).

(** A node of the tree that JSX denotes: [null], [false], a string, or an
    element with its attributes and children. *)
Inductive ReactNode : Type :=
| RNull
| RFalse
| RText (text : string)
| RElement (type : string) (attributes : list (string * JSValue))
    (children : list ReactNode).

(** [renderCommitListItemTags] (lines 201-216). *)
Definition renderCommitListItemTags (tags : list string) : ReactNode :=
  match tags with
  | [] => RNull
  | firstTag :: _ =>
      RElement "span" [("className", VString "tag-indicator")]
        [RElement "span" [("className", VString "tag-name"); ("key", VString firstTag)]
           [RText firstTag];
         if (1 <? List.length tags)%nat
         then RElement "span"
                [("key", VNumber (Z.of_nat (List.length tags)));
                 ("className", VString "tag-indicator-more")] []
         else RFalse]
  end.

(** [renderUnpushedIndicator] (lines 111-124). *)
Definition renderUnpushedIndicator (props : ICommitProps) : ReactNode :=
  if negb (showUnpushedIndicator props)
  then RNull
  else RElement "div"
         [("className", VString "unpushed-indicator");
          ("title", match unpushedIndicatorTitle props with
                    | Some t => VString t
                    | None => VUndefined
                    end)]
         [RElement "Octicon" [("symbol", VSymbol "arrowUp")] []].

(** *** The context menu *)

(** The functions that the menu items carry as their action. *)
Inductive Action : Type :=
| RevertAction
| CreateTagAction
| CopySHAAction
| ViewOnGitHubAction.

(** [IMenuItem], with the members that the component sets. *)
Record IMenuItem : Type := mkMenuItem {
  label : option string;
  action : option Action;
  enabled : option bool;
  type : option string
}.

(** What the component does to the outside. *)
Inductive UIEffect : Type :=
| PreventDefault
| ShowContextualMenu (items : list IMenuItem)
| ClipboardWriteText (text : string)
| CallOnRevertCommit (handler : Handler) (commit : Commit)
| CallOnViewCommitOnGitHub (handler : Handler) (sha : string)
| CallOnCreateTag (handler : Handler) (targetCommitSha : string).

(** [onCopySHA] (lines 126-128). *)
Definition onCopySHA (props : ICommitProps) : list UIEffect :=
  [ClipboardWriteText (sha (commit props))].

(** [onViewOnGitHub] (lines 130-134). *)
Definition onViewOnGitHub (props : ICommitProps) : list UIEffect :=
  match onViewCommitOnGitHub props with
  | Some handler => [CallOnViewCommitOnGitHub handler (sha (commit props))]
  | None => []
  end.

(** [onCreateTag] (lines 136-140).  The record member of the same name is
    the prop, this is the method. *)
Definition onCreateTagMethod (props : ICommitProps) : list UIEffect :=
  match onCreateTag props with
  | Some handler => [CallOnCreateTag handler (sha (commit props))]
  | None => []
  end.

(** Running the action of an item, with the props of that moment.  The
    first case is the arrow function of lines 158-162. *)
Definition runAction (a : Action) (props : ICommitProps) : list UIEffect :=
  match a with
  | RevertAction =>
      match onRevertCommit props with
      | Some handler => [CallOnRevertCommit handler (commit props)]
      | None => []
      end
  | CreateTagAction => onCreateTagMethod props
  | CopySHAAction => onCopySHA props
  | ViewOnGitHubAction => onViewOnGitHub props
  end.

(** The label computed in lines 145-153. *)
Definition viewOnGitHubLabel (env : Environment) (props : ICommitProps) : string :=
  match gitHubRepository props with
  | Some gitHubRepository =>
      if negb (String.eqb (endpoint env gitHubRepository) (getDotComAPIEndpoint env))
      then "View on GitHub Enterprise"
      else "View on GitHub"
  | None => "View on GitHub"
  end.

(** The array [items] as it is when [showContextualMenu] is called (lines
    155-186). *)
Definition menuItems (env : Environment) (props : ICommitProps) : list IMenuItem :=
  let items :=
    [mkMenuItem
       (Some (if __DARWIN__ env then "Revert this Commit" else "Revert this commit"))
       (Some RevertAction)
       (Some (isPresent (onRevertCommit props)))
       None] in
  let items :=
    if enableGitTagsCreation env
    then items ++ [mkMenuItem (Some "Create Tag…") (Some CreateTagAction)
                     (Some (isPresent (onCreateTag props))) None]
    else items in
  items ++
  [mkMenuItem None None None (Some "separator");
   mkMenuItem (Some "Copy SHA") (Some CopySHAAction) None None;
   mkMenuItem (Some (viewOnGitHubLabel env props)) (Some ViewOnGitHubAction)
     (Some (negb (isLocal props) && isPresent (gitHubRepository props)))
     None].

(** [onContextMenu] (lines 142-189). *)
Definition onContextMenu (env : Environment) (props : ICommitProps) : list UIEffect :=
  [PreventDefault; ShowContextualMenu (menuItems env props)].

End CommitListItem.

(** A commit, its props and an environment to run the component on. *)
Definition sampleCommit : CommitListItem.Commit :=
  CommitListItem.mkCommit "0a1b2c3" "Fix the ref parser" 1580000000
    ["v1.0"; "stable"] ["octocat"].

Definition sampleProps : CommitListItem.ICommitProps :=
  CommitListItem.mkProps (Some desktopUpstream) sampleCommit [(":tada:", "tada.png")]
    false (Some 0%nat) None (Some 2%nat) None true (Some "1 unpushed commit").

Definition sampleEnvironment : CommitListItem.Environment :=
  CommitListItem.mkEnvironment false true "https://api.github.com"
    (fun _ => "https://api.github.com")
    (fun x y => if List.list_eq_dec String.string_dec x y then true else false).

(** ** Running the model on the sample data *)

Example sampleWorld_repositories :
  repositories (coordinator sampleWorld) = [cloneG; cloneU; cloneF].
Proof. reflexivity. Qed.

Example sampleWorld_trace :
  trace sampleWorld
  = [RepositoriesStoreOnDidUpdate;
     StoreOnPullRequestsChanged onChanged;
     StoreOnIsLoadingPullRequests onLoading].
Proof. reflexivity. Qed.

Example sampleWorld_event_42 :
  storePullRequestsChanged desktopUpstream [pr101] sampleWorld
  = (Normal,
     appendTrace sampleWorld
       [CallPullRequestsChanged onChanged cloneU [pr101];
        CallPullRequestsChanged onChanged cloneF [pr101]]).
Proof. reflexivity. Qed.

Example touchyWorld_event_42 :
  storePullRequestsChanged desktopUpstream [pr101] touchyWorld
  = (Throw,
     appendTrace touchyWorld [CallPullRequestsChanged touchy cloneU [pr101]]).
Proof. reflexivity. Qed.

Example sampleWorld_two_starts :
  drop 3 (trace (run [StartPullRequestUpdater cloneU octocat;
                      StartPullRequestUpdater cloneF octocat;
                      StopPullRequestUpdater; StopPullRequestUpdater] sampleWorld))
  = [NewPullRequestUpdater 0%nat desktopUpstream octocat; UpdaterStart 0%nat;
     UpdaterStop 0%nat;
     NewPullRequestUpdater 1%nat desktopFork octocat; UpdaterStart 1%nat;
     UpdaterStop 1%nat].
Proof. reflexivity. Qed.

Example formatAsLocalRef_master :
  formatAsLocalRef "master" = "refs/heads/master".
Proof. reflexivity. Qed.

Example formatAsLocalRef_heads :
  formatAsLocalRef "heads/Microsoft/master" = "refs/heads/Microsoft/master".
Proof. reflexivity. Qed.
(** ** Matching a GitHub repository to local repositories *)

Lemma matchesGitHubRepository_isFor R L :
  matchesGitHubRepository (dbID R) L = true <-> isFor R L.
Proof.
  unfold matchesGitHubRepository, isFor.
  rewrite orb_true_iff, Z.eqb_eq.
  destruct (parent (gitHubRepository L)) as [p|].
  - rewrite Z.eqb_eq. split.
    + intros [H|H]; [by left|right]. split; [done|]. by exists p.
    + intros [H|[_ [q [Hq H]]]]; [by left|right]. by injection Hq as ->.
  - split.
    + intros [H|H]; [by left|discriminate].
    + intros [H|[H _]]; [by left|done].
Qed.

Lemma List_filter_decide {A} (f : A -> bool) (P : A -> Prop)
    `{!forall x, Decision (P x)} (l : list A) :
  (forall x, f x = true <-> P x) ->
  List.filter f l = filter P l.
Proof.
  intros Hf. induction l as [|x l IH]; [done|].
  cbn [List.filter]. rewrite filter_cons, IH.
  destruct (f x) eqn:E; case_decide as HP; try done.
  - apply Hf in E. done.
  - apply Hf in HP. congruence.
Qed.

Lemma elem_of_findRepositories R S L :
  L ∈ findRepositoriesForGitHubRepository R S <-> L ∈ S /\ isFor R L.
Proof.
  unfold findRepositoriesForGitHubRepository.
  rewrite !list_elem_of_In, filter_In.
  by rewrite matchesGitHubRepository_isFor.
Qed.

(** C1.  For every remote repository [R] and every snapshot [S], the
    repositories matched for an event about [R] are exactly the [L] in [S]
    whose remote has [R]'s [dbID] or whose remote has a non-null parent with
    [R]'s [dbID]: the result is [S] filtered by that condition (same entries,
    same order, same multiplicity), and membership in it is membership in [S]
    together with the condition. *)
Theorem findRepositories_match_set :
  forall (R : GitHubRepository) (S : list RepositoryWithGitHubRepository),
    findRepositoriesForGitHubRepository R S = filter (isFor R) S
    /\ (forall L, L ∈ findRepositoriesForGitHubRepository R S <-> L ∈ S /\ isFor R L).
Proof.
  intros R S. split.
  - apply List_filter_decide. intros L. apply matchesGitHubRepository_isFor.
  - intros L. apply elem_of_findRepositories.
Qed.

(** ** Formatting a local ref *)

Lemma prefix_app_iff (p s : string) :
  String.prefix p s = true <-> exists rest, s = (p ++ rest)%string.
Proof.
  revert s. induction p as [|c p IH]; intros s.
  - split; [intros _; by exists s|]. by destruct s.
  - destruct s as [|d s]; cbn [String.prefix].
    + split; [discriminate|]. intros [rest H]. discriminate.
    + destruct (Ascii.ascii_dec c d) as [->|Hne].
      * rewrite IH. split; intros [rest H]; exists rest.
        -- by rewrite H.
        -- cbn in H. by injection H.
      * split; [discriminate|]. intros [rest H]. cbn in H. injection H as H1 H2.
        congruence.
Qed.

(** C10.  For every branch name, [formatAsLocalRef] returns a ref that begins
    with "refs/heads/": "refs/" followed by the name when the name starts
    with "heads/", and "refs/heads/" followed by the name otherwise. *)
Theorem formatAsLocalRef_fully_qualified :
  forall name : string,
    String.prefix "refs/heads/" (formatAsLocalRef name) = true
    /\ ((exists rest, name = ("heads/" ++ rest)%string) ->
        formatAsLocalRef name = ("refs/" ++ name)%string)
    /\ (~ (exists rest, name = ("heads/" ++ rest)%string) ->
        formatAsLocalRef name = ("refs/heads/" ++ name)%string).
Proof.
  intros name. unfold formatAsLocalRef.
  destruct (String.prefix "heads/" name) eqn:E.
  - pose proof E as [rest ->]%prefix_app_iff.
    split; [|split]; [|done|].
    + apply prefix_app_iff. by exists rest.
    + intros H. exfalso. apply H. by exists rest.
  - split; [|split]; [| |done].
    + apply prefix_app_iff. by exists name.
    + intros H%prefix_app_iff. congruence.
Qed.

Lemma formatAsLocalRef_fully_qualified_witness :
  formatAsLocalRef "heads/Microsoft/master" = "refs/heads/Microsoft/master"
  /\ formatAsLocalRef "master" = "refs/heads/master".
Proof.
  split.
  - apply (formatAsLocalRef_fully_qualified "heads/Microsoft/master").
    by exists "Microsoft/master".
  - apply (formatAsLocalRef_fully_qualified "master").
    intros [rest H]. discriminate H.
Defined.

(** ** What the methods do to the world *)

Lemma appendTrace_nil w : appendTrace w [] = w.
Proof. destruct w. unfold appendTrace. cbn. by rewrite app_nil_r. Qed.

Lemma appendTrace_app w es fs :
  appendTrace (appendTrace w es) fs = appendTrace w (es ++ fs).
Proof. unfold appendTrace. cbn. by rewrite app_assoc. Qed.

Lemma emitted_appendTrace {A} (m : M A) w a es :
  m w = (a, appendTrace w es) -> emitted m w = es.
Proof.
  intros H. unfold emitted, exec. rewrite H. cbn.
  by rewrite drop_app_length.
Qed.

(** *** Calls that may throw *)

Lemma untilThrow_returning es :
  Forall (fun e => effectThrows e = false) es ->
  untilThrow es = es /\ completion es = Normal.
Proof.
  unfold completion. induction 1 as [|e es He _ [IH1 IH2]]; [done|].
  cbn. rewrite He. cbn. by rewrite IH1, IH2.
Qed.

Lemma untilThrow_Forall (P : Effect -> Prop) es :
  Forall P es -> Forall P (untilThrow es).
Proof.
  induction 1 as [|e es He _ IH]; [constructor|].
  cbn. constructor; [done|]. destruct (effectThrows e); [constructor|done].
Qed.

Lemma forEach_call {A} (f : A -> Effect) (xs : list A) w :
  forEach xs (fun x => call (f x)) w
  = (completion (map f xs), appendTrace w (untilThrow (map f xs))).
Proof.
  revert w. induction xs as [|x xs IH]; intros w.
  - cbn. by rewrite appendTrace_nil.
  - cbn [forEach map untilThrow]. unfold bind, call, bind, emit, ret.
    change (mkWorld _ _ _ _ (trace w ++ [f x])) with (appendTrace w [f x]).
    unfold completion. cbn [existsb].
    destruct (effectThrows (f x)); cbn [orb].
    + done.
    + rewrite IH, appendTrace_app. done.
Qed.

Lemma pullRequestsChangedListener_spec fn ghRepo prs w :
  pullRequestsChangedListener fn ghRepo prs w
  = (completion
       (callsPullRequestsChanged fn prs
          (findRepositoriesForGitHubRepository ghRepo
             (repositories (coordinator w)))),
     appendTrace w
       (untilThrow
          (callsPullRequestsChanged fn prs
             (findRepositoriesForGitHubRepository ghRepo
                (repositories (coordinator w)))))).
Proof. unfold pullRequestsChangedListener, bind, this. apply forEach_call. Qed.

Lemma isLoadingPullRequestsListener_spec fn ghRepo b w :
  isLoadingPullRequestsListener fn ghRepo b w
  = (completion
       (callsIsLoadingPullRequests fn b
          (findRepositoriesForGitHubRepository ghRepo
             (repositories (coordinator w)))),
     appendTrace w
       (untilThrow
          (callsIsLoadingPullRequests fn b
             (findRepositoriesForGitHubRepository ghRepo
                (repositories (coordinator w)))))).
Proof. unfold isLoadingPullRequestsListener, bind, this. apply forEach_call. Qed.

(** Listeners that only make calls, run in turn by the store. *)
Lemma dispatch_appending rethrows (fns : list Callback)
    (listener : Callback -> M Completion)
    (calls : Callback -> list RepositoryWithGitHubRepository -> list Effect) w :
  (forall fn w',
      listener fn w'
      = (completion (calls fn (repositories (coordinator w'))),
         appendTrace w' (untilThrow (calls fn (repositories (coordinator w')))))) ->
  dispatch rethrows fns listener w
  = (dispatchCompletion rethrows
       (map (fun fn => calls fn (repositories (coordinator w))) fns),
     appendTrace w
       (dispatched rethrows
          (map (fun fn => calls fn (repositories (coordinator w))) fns))).
Proof.
  intros Hl. revert w. induction fns as [|fn fns IH]; intros w.
  - cbn. by rewrite appendTrace_nil.
  - cbn [dispatch map dispatched dispatchCompletion]. unfold bind.
    rewrite Hl. unfold completion.
    destruct (existsb effectThrows (calls fn (repositories (coordinator w))));
      destruct rethrows; cbn [andb].
    + by rewrite app_nil_r.
    + by rewrite IH, appendTrace_app.
    + by rewrite IH, appendTrace_app.
    + by rewrite IH, appendTrace_app.
Qed.

Lemma storePullRequestsChanged_spec ghRepo prs w :
  let ess := map (fun fn => callsPullRequestsChanged fn prs
                              (findRepositoriesForGitHubRepository ghRepo
                                 (repositories (coordinator w))))
               (pullRequestsChangedListeners w) in
  let rethrows := store_rethrows (pullRequestStore (coordinator w)) in
  storePullRequestsChanged ghRepo prs w
  = (dispatchCompletion rethrows ess, appendTrace w (dispatched rethrows ess)).
Proof.
  cbn zeta. unfold storePullRequestsChanged.
  apply (dispatch_appending _ _ _
           (fun fn rs => callsPullRequestsChanged fn prs
                           (findRepositoriesForGitHubRepository ghRepo rs))).
  intros fn w'. apply pullRequestsChangedListener_spec.
Qed.

Lemma storeIsLoadingPullRequests_spec ghRepo b w :
  let ess := map (fun fn => callsIsLoadingPullRequests fn b
                              (findRepositoriesForGitHubRepository ghRepo
                                 (repositories (coordinator w))))
               (isLoadingListeners w) in
  let rethrows := store_rethrows (pullRequestStore (coordinator w)) in
  storeIsLoadingPullRequests ghRepo b w
  = (dispatchCompletion rethrows ess, appendTrace w (dispatched rethrows ess)).
Proof.
  cbn zeta. unfold storeIsLoadingPullRequests.
  apply (dispatch_appending _ _ _
           (fun fn rs => callsIsLoadingPullRequests fn b
                           (findRepositoriesForGitHubRepository ghRepo rs))).
  intros fn w'. apply isLoadingPullRequestsListener_spec.
Qed.

Lemma dispatched_Forall (P : Effect -> Prop) rethrows ess :
  Forall (Forall P) ess -> Forall P (dispatched rethrows ess).
Proof.
  induction 1 as [|es ess Hes _ IH]; [constructor|].
  cbn. apply Forall_app. split; [by apply untilThrow_Forall|].
  destruct (rethrows && existsb effectThrows es); [constructor|done].
Qed.

(** When no call throws, every listener makes all its calls. *)
Lemma dispatched_returning rethrows ess :
  Forall (Forall (fun e => effectThrows e = false)) ess ->
  dispatched rethrows ess = concat ess
  /\ dispatchCompletion rethrows ess = Normal.
Proof.
  induction 1 as [|es ess Hes _ [IH1 IH2]]; [done|].
  destruct (untilThrow_returning es Hes) as [H1 H2]. unfold completion in H2.
  cbn. rewrite H1.
  destruct (existsb effectThrows es); [discriminate H2|].
  rewrite andb_false_r. by rewrite IH1, IH2.
Qed.

Lemma dispatched_nil rethrows {A} (l : list A) :
  dispatched rethrows (map (fun _ => []) l) = []
  /\ dispatchCompletion rethrows (map (fun _ => []) l) = Normal.
Proof.
  induction l as [|x l [IH1 IH2]]; [done|].
  cbn. by rewrite andb_false_r, IH1, IH2.
Qed.


Lemma notified_callsPullRequestsChanged fn prs rs :
  notified (callsPullRequestsChanged fn prs rs) = rs.
Proof. induction rs as [|r rs IH]; [done|]. cbn. f_equal. apply IH. Qed.


Lemma callsPullRequestsChanged_Forall (P : Effect -> Prop) fn prs rs :
  (forall r, r ∈ rs -> P (CallPullRequestsChanged fn r prs)) ->
  Forall P (callsPullRequestsChanged fn prs rs).
Proof.
  intros H. apply Forall_forall. intros e [r [-> Hr]]%list_elem_of_fmap. by apply H.
Qed.

Lemma callsIsLoadingPullRequests_Forall (P : Effect -> Prop) fn b rs :
  (forall r, r ∈ rs -> P (CallIsLoadingPullRequests fn r b)) ->
  Forall P (callsIsLoadingPullRequests fn b rs).
Proof.
  intros H. apply Forall_forall. intros e [r [-> Hr]]%list_elem_of_fmap. by apply H.
Qed.

(** What the store runs for an event are calls of the listeners it holds. *)
Lemma storePullRequestsChanged_Forall (P : Effect -> Prop) ghRepo prs w :
  (forall fn r,
      fn ∈ pullRequestsChangedListeners w ->
      r ∈ findRepositoriesForGitHubRepository ghRepo (repositories (coordinator w)) ->
      P (CallPullRequestsChanged fn r prs)) ->
  exists c es,
    storePullRequestsChanged ghRepo prs w = (c, appendTrace w es) /\ Forall P es.
Proof.
  intros HP. rewrite storePullRequestsChanged_spec. do 2 eexists. split; [done|].
  apply dispatched_Forall, Forall_forall.
  intros es [fn [-> Hfn]]%list_elem_of_fmap.
  apply callsPullRequestsChanged_Forall. intros r Hr. by apply HP.
Qed.

Lemma storeIsLoadingPullRequests_Forall (P : Effect -> Prop) ghRepo b w :
  (forall fn r,
      fn ∈ isLoadingListeners w ->
      r ∈ findRepositoriesForGitHubRepository ghRepo (repositories (coordinator w)) ->
      P (CallIsLoadingPullRequests fn r b)) ->
  exists c es,
    storeIsLoadingPullRequests ghRepo b w = (c, appendTrace w es) /\ Forall P es.
Proof.
  intros HP. rewrite storeIsLoadingPullRequests_spec. do 2 eexists. split; [done|].
  apply dispatched_Forall, Forall_forall.
  intros es [fn [-> Hfn]]%list_elem_of_fmap.
  apply callsIsLoadingPullRequests_Forall. intros r Hr. by apply HP.
Qed.

(** The effects of stopping the current updater, if there is one. *)
Lemma stopPullRequestUpdater_spec w :
  stopPullRequestUpdater w
  = (tt, mkWorld
           (mkCoordinator (pullRequestStore (coordinator w)) None
              (repositories (coordinator w)))
           (pullRequestsChangedListeners w) (isLoadingListeners w) (nextUpdater w)
           (trace w ++ match currentPullRequestUpdater (coordinator w) with
                       | Some u => [UpdaterStop u]
                       | None => []
                       end)).
Proof.
  destruct w as [[store [u|] rs] l1 l2 n t]; cbn; [done|].
  by rewrite app_nil_r.
Qed.

Lemma startPullRequestUpdater_spec repository account w :
  startPullRequestUpdater repository account w
  = (tt, mkWorld
           (mkCoordinator (pullRequestStore (coordinator w)) (Some (nextUpdater w))
              (repositories (coordinator w)))
           (pullRequestsChangedListeners w) (isLoadingListeners w)
           (S (nextUpdater w))
           (trace w ++ match currentPullRequestUpdater (coordinator w) with
                       | Some u => [UpdaterStop u]
                       | None => []
                       end
                    ++ [NewPullRequestUpdater (nextUpdater w)
                          (gitHubRepository repository) account;
                        UpdaterStart (nextUpdater w)])).
Proof.
  destruct w as [[store [u|] rs] l1 l2 n t]; cbn; unfold emit; cbn;
    by rewrite <- !app_assoc.
Qed.

Lemma run_snoc ops op w : run (ops ++ [op]) w = step (run ops w) op.
Proof. unfold run. by rewrite fold_left_app. Qed.

Lemma run_cons op ops w : run (op :: ops) w = run ops (step w op).
Proof. done. Qed.

(** One step and the listeners that the store holds: they grow by the
    registrations and change by nothing else. *)
Lemma step_listeners w op :
  pullRequestsChangedListeners (step w op)
  = pullRequestsChangedListeners w
    ++ match op with
       | OnPullRequestsChanged fn => [fn]
       | _ => []
       end
  /\ isLoadingListeners (step w op)
     = isLoadingListeners w
       ++ match op with
          | OnIsLoadingPullRequests fn => [fn]
          | _ => []
          end.
Proof.
  destruct op as [all|fn|fn|gh prs|gh b|r a|r|r a|]; cbn [step];
    try (cbn; by rewrite ?app_nil_r); unfold exec.
  - rewrite storePullRequestsChanged_spec. cbn. by rewrite !app_nil_r.
  - rewrite storeIsLoadingPullRequests_spec. cbn. by rewrite !app_nil_r.
  - rewrite startPullRequestUpdater_spec. cbn. by rewrite !app_nil_r.
  - rewrite stopPullRequestUpdater_spec. cbn. by rewrite !app_nil_r.
Qed.

(** The listeners that the store holds for a coordinator are the callbacks
    registered through the two methods, in the order of the registrations. *)
Lemma run_listeners store ops :
  pullRequestsChangedListeners (run ops (newPullRequestCoordinator store))
  = registeredPullRequestsChanged ops
  /\ isLoadingListeners (run ops (newPullRequestCoordinator store))
     = registeredIsLoadingPullRequests ops.
Proof.
  unfold registeredPullRequestsChanged, registeredIsLoadingPullRequests.
  induction ops as [|op ops [IH1 IH2]] using rev_ind; [done|].
  rewrite run_snoc, !omap_app.
  destruct (step_listeners (run ops (newPullRequestCoordinator store)) op)
    as [H1 H2].
  rewrite H1, H2, IH1, IH2. by destruct op.
Qed.
(** ** Fan-out of the store events *)


Lemma returning_callsPullRequestsChanged fn prs rs :
  (forall r, r ∈ rs -> throwsFor fn r (PullRequestsPayload prs) = false) ->
  Forall (fun e => effectThrows e = false) (callsPullRequestsChanged fn prs rs).
Proof. intros H. by apply callsPullRequestsChanged_Forall. Qed.

Lemma returning_callsIsLoadingPullRequests fn b rs :
  (forall r, r ∈ rs -> throwsFor fn r (IsLoadingPayload b) = false) ->
  Forall (fun e => effectThrows e = false) (callsIsLoadingPullRequests fn b rs).
Proof. intros H. by apply callsIsLoadingPullRequests_Forall. Qed.




Lemma findRepositories_none ghRepo (S : list RepositoryWithGitHubRepository) :
  (forall L, L ∈ S -> ~ isFor ghRepo L) ->
  findRepositoriesForGitHubRepository ghRepo S = [].
Proof.
  intros Hnone.
  destruct (findRepositoriesForGitHubRepository ghRepo S) as [|L rest] eqn:E; [done|].
  assert (HL : L ∈ findRepositoriesForGitHubRepository ghRepo S)
    by (rewrite E; apply elem_of_cons; by left).
  apply elem_of_findRepositories in HL as [HL Hm].
  by destruct (Hnone L HL).
Qed.

(** C5.  When the remote repository of a store event matches no repository
    of the current snapshot, the event - of either kind, for one listener or
    for all registered listeners - returns normally and leaves the world as
    it was: no callback is invoked and nothing else happens. *)
Theorem no_match_no_callback :
  forall (w : World) (ghRepo : GitHubRepository)
         (pullRequests : list PullRequest) (isLoading : bool),
    (forall L, L ∈ repositories (coordinator w) -> ~ isFor ghRepo L) ->
    storePullRequestsChanged ghRepo pullRequests w = (Normal, w)
    /\ storeIsLoadingPullRequests ghRepo isLoading w = (Normal, w)
    /\ (forall fn, pullRequestsChangedListener fn ghRepo pullRequests w = (Normal, w))
    /\ (forall fn, isLoadingPullRequestsListener fn ghRepo isLoading w = (Normal, w))
    /\ emitted (storePullRequestsChanged ghRepo pullRequests) w = []
    /\ emitted (storeIsLoadingPullRequests ghRepo isLoading) w = [].
Proof.
  intros w ghRepo prs b Hnone.
  pose proof (findRepositories_none _ _ Hnone) as Hfind.
  assert (H1 : storePullRequestsChanged ghRepo prs w = (Normal, w)).
  { rewrite storePullRequestsChanged_spec, Hfind. cbn.
    destruct (dispatched_nil (store_rethrows (pullRequestStore (coordinator w)))
                (pullRequestsChangedListeners w)) as [-> ->].
    by rewrite appendTrace_nil. }
  assert (H2 : storeIsLoadingPullRequests ghRepo b w = (Normal, w)).
  { rewrite storeIsLoadingPullRequests_spec, Hfind. cbn.
    destruct (dispatched_nil (store_rethrows (pullRequestStore (coordinator w)))
                (isLoadingListeners w)) as [-> ->].
    by rewrite appendTrace_nil. }
  repeat split; try done.
  - intros fn. rewrite pullRequestsChangedListener_spec, Hfind. cbn.
    by rewrite appendTrace_nil.
  - intros fn. rewrite isLoadingPullRequestsListener_spec, Hfind. cbn.
    by rewrite appendTrace_nil.
  - apply (emitted_appendTrace _ _ Normal). by rewrite appendTrace_nil.
  - apply (emitted_appendTrace _ _ Normal). by rewrite appendTrace_nil.
Qed.

Lemma no_match_no_callback_witness :
  storePullRequestsChanged
    (mkGitHubRepository 1000 "nobody/nothing" None) [pr101] sampleWorld
  = (Normal, sampleWorld).
Proof.
  apply (no_match_no_callback sampleWorld
           (mkGitHubRepository 1000 "nobody/nothing" None) [pr101] true).
  change (repositories (coordinator sampleWorld)) with [cloneG; cloneU; cloneF].
  intros L HL Hm.
  rewrite !elem_of_cons, elem_of_nil in HL.
  destruct HL as [->|[->|[->|[]]]];
    destruct Hm as [H|[_ [q [Hq H]]]]; try discriminate H;
    try discriminate Hq; injection Hq as <-; discriminate H.
Defined.




(** ** Delegation to the store *)

(** C7.  [refreshPullRequests] and [getAllPullRequests] make one call to the
    store each, with the [gitHubRepository] of the local repository (and the
    account), and return what the store returns, a rejected promise
    included; the identifier and the path of the local repository play no
    part. *)
Theorem delegation_uses_gitHubRepository :
  forall (w : World) (repository : RepositoryWithGitHubRepository) (account : Account),
    let store := pullRequestStore (coordinator w) in
    refreshPullRequests repository account w
    = (store_refreshPullRequests store (gitHubRepository repository) account,
       appendTrace w [StoreRefreshPullRequests (gitHubRepository repository) account])
    /\ getAllPullRequests repository w
       = (store_getAll store (gitHubRepository repository),
          appendTrace w [StoreGetAll (gitHubRepository repository)])
    /\ (forall reason,
          store_refreshPullRequests store (gitHubRepository repository) account
          = Rejected reason ->
          result (refreshPullRequests repository account) w = Rejected reason)
    /\ (forall other : RepositoryWithGitHubRepository,
          gitHubRepository other = gitHubRepository repository ->
          refreshPullRequests other account w = refreshPullRequests repository account w
          /\ getAllPullRequests other w = getAllPullRequests repository w).
Proof.
  intros w repository account store.
  split; [done|]. split; [done|]. split.
  - intros reason H. unfold result. cbn. exact H.
  - intros other H. split.
    + unfold refreshPullRequests. by rewrite H.
    + unfold getAllPullRequests. by rewrite H.
Qed.

Lemma delegation_uses_gitHubRepository_witness :
  result (refreshPullRequests cloneG octocat) sampleWorld = Rejected "not found"
  /\ refreshPullRequests (mkRepository 77 "/tmp/elsewhere" desktopUpstream) octocat
       sampleWorld
     = refreshPullRequests cloneU octocat sampleWorld.
Proof.
  split.
  - apply (delegation_uses_gitHubRepository sampleWorld cloneG octocat).
    reflexivity.
  - apply (delegation_uses_gitHubRepository sampleWorld cloneU octocat).
    reflexivity.
Defined.

(** ** The updater *)

Lemma stopPullRequestUpdater_none w :
  currentPullRequestUpdater (coordinator w) = None ->
  stopPullRequestUpdater w = (tt, w).
Proof. intros H. unfold stopPullRequestUpdater, bind, this. by rewrite H. Qed.

Lemma stopPullRequestUpdater_current w :
  currentPullRequestUpdater (coordinator (exec stopPullRequestUpdater w)) = None.
Proof.
  unfold exec, stopPullRequestUpdater, bind, this.
  destruct (currentPullRequestUpdater (coordinator w)) eqn:E; [done|].
  cbn. done.
Qed.

(** C6.  [stopPullRequestUpdater] with no active updater returns normally
    and leaves the world - coordinator, listeners and trace - as it was;
    and calling it any number of times in a row leaves the world that one
    call leaves, whatever the state it starts from. *)
Theorem stopPullRequestUpdater_noop :
  forall w : World,
    (currentPullRequestUpdater (coordinator w) = None ->
     stopPullRequestUpdater w = (tt, w)
     /\ emitted stopPullRequestUpdater w = [])
    /\ (forall n : nat,
          Nat.iter (S n) (exec stopPullRequestUpdater) w
          = exec stopPullRequestUpdater w).
Proof.
  intros w. split.
  - intros H. pose proof (stopPullRequestUpdater_none w H) as Hs. split; [done|].
    apply (emitted_appendTrace _ _ tt). by rewrite appendTrace_nil.
  - intros n. induction n as [|n IH]; [done|].
    change (Nat.iter (S (S n)) (exec stopPullRequestUpdater) w)
      with (exec stopPullRequestUpdater
              (Nat.iter (S n) (exec stopPullRequestUpdater) w)).
    rewrite IH. unfold exec at 1.
    rewrite stopPullRequestUpdater_none; [done|].
    apply stopPullRequestUpdater_current.
Qed.

Lemma stopPullRequestUpdater_noop_witness :
  stopPullRequestUpdater sampleWorld = (tt, sampleWorld)
  /\ emitted stopPullRequestUpdater sampleWorld = [].
Proof.
  apply (stopPullRequestUpdater_noop sampleWorld). reflexivity.
Defined.

(** ** The snapshot of repositories *)

Lemma narrowRepository_Some (r : Repository) r' :
  narrowRepository r = Some r' -> asRepository r' = r.
Proof.
  unfold narrowRepository. destruct r as [i p [gh|]]; cbn; [|discriminate].
  intros [= <-]. done.
Qed.

Lemma narrowRepository_guard (r : Repository) :
  isRepositoryWithGitHubRepository r = true -> is_Some (narrowRepository r).
Proof.
  unfold isRepositoryWithGitHubRepository, narrowRepository.
  destruct (gitHubRepository r); [eauto|discriminate].
Qed.

(** The narrowed array holds the objects that [filter] keeps. *)
Lemma filterWithGitHubRepository_filter (allRepositories : list Repository) :
  map asRepository (filterWithGitHubRepository allRepositories)
  = List.filter isRepositoryWithGitHubRepository allRepositories.
Proof.
  induction allRepositories as [|r rest IH]; [done|].
  cbn [filterWithGitHubRepository List.filter].
  destruct (isRepositoryWithGitHubRepository r) eqn:E; [|done].
  destruct (narrowRepository_guard r E) as [r' Hr']. rewrite Hr'.
  cbn [map]. by rewrite IH, (narrowRepository_Some r r').
Qed.

Lemma elem_of_filterWithGitHubRepository (allRepositories : list Repository) L :
  L ∈ filterWithGitHubRepository allRepositories ->
  asRepository L ∈ allRepositories.
Proof.
  intros HL.
  assert (H : asRepository L ∈ map asRepository
                (filterWithGitHubRepository allRepositories))
    by (by apply list_elem_of_fmap_2).
  rewrite filterWithGitHubRepository_filter in H.
  apply list_elem_of_In, filter_In in H as [H _]. by apply list_elem_of_In.
Qed.

Lemma notified_app es fs : notified (es ++ fs) = notified es ++ notified fs.
Proof. unfold notified. apply omap_app. Qed.

Lemma notified_Forall (P : RepositoryWithGitHubRepository -> Prop) es :
  Forall (fun e => forall r, effectRepository e = Some r -> P r) es ->
  forall r, r ∈ notified es -> P r.
Proof.
  intros H r Hr. unfold notified in Hr.
  apply list_elem_of_omap in Hr as [e [He Hr]].
  rewrite Forall_forall in H. by apply (H e He).
Qed.

(** One step: the store of the coordinator stays, the snapshot changes only
    by an update of the repositories store, and callbacks are invoked only
    for repositories of the snapshot. *)
Lemma step_snapshot w op :
  pullRequestStore (coordinator (step w op)) = pullRequestStore (coordinator w)
  /\ repositories (coordinator (step w op))
     = match op with
       | RepositoriesDidUpdate allRepositories =>
           filterWithGitHubRepository allRepositories
       | _ => repositories (coordinator w)
       end
  /\ exists es, trace (step w op) = trace w ++ es
                /\ forall r, r ∈ notified es -> r ∈ repositories (coordinator w).
Proof.
  destruct op as [all|fn|fn|gh prs|gh b|r a|r|r a|]; cbn [step].
  - repeat split; try done. exists []. split; [by rewrite app_nil_r|].
    by intros r ?%elem_of_nil.
  - repeat split; try done. eexists. split; [done|]. by intros r ?%elem_of_nil.
  - repeat split; try done. eexists. split; [done|]. by intros r ?%elem_of_nil.
  - unfold exec.
    destruct (storePullRequestsChanged_Forall
                (fun e => forall r, effectRepository e = Some r ->
                                    r ∈ repositories (coordinator w)) gh prs w)
      as [c [es [Hs Hes]]].
    { intros fn r _ Hr r' [= <-]. by apply elem_of_findRepositories in Hr as [? _]. }
    rewrite Hs. repeat split; try done. exists es. split; [done|].
    by apply notified_Forall.
  - unfold exec.
    destruct (storeIsLoadingPullRequests_Forall
                (fun e => forall r, effectRepository e = Some r ->
                                    r ∈ repositories (coordinator w)) gh b w)
      as [c [es [Hs Hes]]].
    { intros fn r _ Hr r' [= <-]. by apply elem_of_findRepositories in Hr as [? _]. }
    rewrite Hs. repeat split; try done. exists es. split; [done|].
    by apply notified_Forall.
  - repeat split; try done. eexists. split; [done|]. by intros r' ?%elem_of_nil.
  - repeat split; try done. eexists. split; [done|]. by intros r' ?%elem_of_nil.
  - unfold exec. rewrite startPullRequestUpdater_spec. repeat split; try done.
    eexists. split; [done|].
    destruct (currentPullRequestUpdater (coordinator w)); cbn;
      by intros r' ?%elem_of_nil.
  - unfold exec. rewrite stopPullRequestUpdater_spec. repeat split; try done.
    eexists. split; [done|].
    destruct (currentPullRequestUpdater (coordinator w)); cbn;
      by intros r' ?%elem_of_nil.
Qed.

Lemma lastUpdate_snoc ops op :
  lastUpdate (ops ++ [op])
  = match op with
    | RepositoriesDidUpdate allRepositories => allRepositories
    | _ => lastUpdate ops
    end.
Proof. unfold lastUpdate. by rewrite fold_left_app. Qed.

(** Between two updates of the repositories store the snapshot stays, and
    callbacks are invoked only for its repositories. *)
Lemma run_without_update ops w :
  noRepositoriesUpdate ops ->
  repositories (coordinator (run ops w)) = repositories (coordinator w)
  /\ exists es, trace (run ops w) = trace w ++ es
                /\ forall r, r ∈ notified es -> r ∈ repositories (coordinator w).
Proof.
  revert w. induction ops as [|op ops IH]; intros w Hops.
  - split; [done|]. exists []. split; [by rewrite app_nil_r|].
    by intros r ?%elem_of_nil.
  - apply Forall_cons in Hops as [Hop Hops]. rewrite run_cons.
    destruct (IH (step w op) Hops) as [Hrs [es [Ht Hes]]].
    destruct (step_snapshot w op) as [_ [Hrs' [es' [Ht' Hes']]]].
    assert (Hsame : repositories (coordinator (step w op))
                    = repositories (coordinator w))
      by (rewrite Hrs'; by destruct op).
    split; [congruence|].
    exists (es' ++ es). split; [by rewrite Ht, Ht', app_assoc|].
    intros r. rewrite notified_app, elem_of_app. intros [H|H]; [by apply Hes'|].
    rewrite <- Hsame. by apply Hes.
Qed.

(** Where the repositories of the snapshot and of the callbacks come from. *)
Lemma run_snapshot store ops :
  let w := run ops (newPullRequestCoordinator store) in
  repositories (coordinator w) = filterWithGitHubRepository (lastUpdate ops)
  /\ forall L, L ∈ repositories (coordinator w) \/ L ∈ notified (trace w) ->
               exists allRepositories,
                 RepositoriesDidUpdate allRepositories ∈ ops
                 /\ asRepository L ∈ allRepositories.
Proof.
  induction ops as [|op ops IH] using rev_ind.
  - split; [done|]. intros L [H|H]; by apply elem_of_nil in H.
  - cbn zeta in *. rewrite run_snoc, lastUpdate_snoc.
    destruct IH as [IHrs IHfrom].
    destruct (step_snapshot (run ops (newPullRequestCoordinator store)) op)
      as [_ [Hrs [es [Ht Hes]]]].
    assert (Hold : forall L,
               L ∈ repositories (coordinator (run ops (newPullRequestCoordinator store)))
               \/ L ∈ notified (trace (run ops (newPullRequestCoordinator store))) ->
               exists allRepositories,
                 RepositoriesDidUpdate allRepositories ∈ ops ++ [op]
                 /\ asRepository L ∈ allRepositories).
    { intros L HL. destruct (IHfrom L HL) as [all [Hall HLall]].
      exists all. split; [|done]. apply elem_of_app. by left. }
    split.
    + rewrite Hrs. by destruct op.
    + intros L [HL|HL].
      * rewrite Hrs in HL. destruct op as [all| | | | | | | |];
          try (apply Hold; by left).
        exists all. split; [|by apply elem_of_filterWithGitHubRepository].
        apply elem_of_app. right. apply elem_of_cons. by left.
      * rewrite Ht, notified_app, elem_of_app in HL.
        destruct HL as [HL|HL]; [apply Hold; by right|].
        apply Hold. left. by apply Hes.
Qed.

(** C9.  After any sequence of events, the snapshot of the coordinator is
    the last list delivered by the repositories store filtered by
    [isRepositoryWithGitHubRepository] (the empty list before the first
    update): every entry carries a GitHub repository, a repository without
    one is never in the snapshot, and every repository a callback was ever
    invoked for carries one and was delivered by some update. *)
Theorem snapshot_has_gitHubRepository :
  forall (store : PullRequestStore) (ops : list Op),
    let w := run ops (newPullRequestCoordinator store) in
    map asRepository (repositories (coordinator w))
    = List.filter isRepositoryWithGitHubRepository (lastUpdate ops)
    /\ Forall (fun r => isRepositoryWithGitHubRepository r = true)
         (map asRepository (repositories (coordinator w)))
    /\ (forall r : Repository,
          r ∈ map asRepository (repositories (coordinator w)) ->
          gitHubRepository r <> None)
    /\ (forall L : RepositoryWithGitHubRepository,
          L ∈ notified (trace w) ->
          isRepositoryWithGitHubRepository (asRepository L) = true
          /\ exists allRepositories,
               RepositoriesDidUpdate allRepositories ∈ ops
               /\ asRepository L ∈ allRepositories).
Proof.
  intros store ops w.
  destruct (run_snapshot store ops) as [Hrs Hfrom]. fold w in Hrs, Hfrom.
  assert (Hfilter : map asRepository (repositories (coordinator w))
                    = List.filter isRepositoryWithGitHubRepository (lastUpdate ops))
    by (rewrite Hrs; apply filterWithGitHubRepository_filter).
  assert (Hall : Forall (fun r => isRepositoryWithGitHubRepository r = true)
                   (map asRepository (repositories (coordinator w)))).
  { rewrite Hfilter. apply Forall_forall. intros r Hr.
    apply list_elem_of_In, filter_In in Hr as [_ Hr]. done. }
  split; [done|]. split; [done|]. split.
  - intros r Hr Hnone.
    rewrite Forall_forall in Hall. specialize (Hall r Hr).
    unfold isRepositoryWithGitHubRepository in Hall. by rewrite Hnone in Hall.
  - intros L HL. split; [done|]. apply Hfrom. by right.
Qed.

(** C4.  An update of the repositories store replaces the snapshot by the
    delivered list, filtered, whatever the snapshot was before.  A
    repository that is absent from the delivered list - whether or not the
    snapshot held it before - gets no callback invocation from whatever
    happens next, up to the next update. *)
Theorem registry_update_replaces_snapshot :
  forall (w : World) (allRepositories : list Repository),
    let w1 := exec (onDidUpdate allRepositories) w in
    repositories (coordinator w1) = filterWithGitHubRepository allRepositories
    /\ map asRepository (repositories (coordinator w1))
       = List.filter isRepositoryWithGitHubRepository allRepositories
    /\ trace w1 = trace w
    /\ (forall (L : RepositoryWithGitHubRepository) (ops : list Op),
          asRepository L ∉ allRepositories ->
          noRepositoriesUpdate ops ->
          (L ∉ repositories (coordinator (run ops w1)))
          /\ (L ∉ notified (drop (List.length (trace w1)) (trace (run ops w1))))).
Proof.
  intros w allRepositories w1.
  split; [done|]. split; [apply filterWithGitHubRepository_filter|].
  split; [done|].
  intros L ops Habsent Hops.
  assert (HL : L ∉ repositories (coordinator w1)).
  { intros H. apply Habsent. by apply elem_of_filterWithGitHubRepository. }
  destruct (run_without_update ops w1 Hops) as [Hrs [es [Ht Hes]]].
  split; [by rewrite Hrs|].
  rewrite Ht, drop_app_length. intros H. apply HL. by apply Hes.
Qed.

Lemma registry_update_replaces_snapshot_witness :
  cloneU ∉ notified
             (drop (List.length
                      (trace (exec (onDidUpdate [asRepository cloneF; scratch])
                                sampleWorld)))
                (trace (run [StorePullRequestsChanged desktopUpstream [pr101];
                             StoreIsLoadingPullRequests desktopUpstream true]
                          (exec (onDidUpdate [asRepository cloneF; scratch])
                             sampleWorld)))).
Proof.
  apply (proj2 (proj2 (proj2 (registry_update_replaces_snapshot sampleWorld
                                [asRepository cloneF; scratch])))
           cloneU
           [StorePullRequestsChanged desktopUpstream [pr101];
            StoreIsLoadingPullRequests desktopUpstream true]).
  - rewrite !elem_of_cons, elem_of_nil. intros [H|[H|[]]]; discriminate H.
  - repeat constructor.
Defined.

(** ** At most one updater *)

Lemma liveUpdaters_app t es :
  liveUpdaters (t ++ es) = fold_left updaterStep es (liveUpdaters t).
Proof. unfold liveUpdaters. apply fold_left_app. Qed.

Lemma updaterStep_quiet es live :
  quiet es -> fold_left updaterStep es live = live.
Proof.
  intros Hq. induction Hq as [|e es He _ IH]; [done|].
  cbn [fold_left]. destruct e; try discriminate He; exact IH.
Qed.

(** The three kinds of step, seen from the updaters: no interaction with any
    updater; [stopPullRequestUpdater]; [startPullRequestUpdater]. *)
Lemma step_updaters w op :
  let stops := match currentPullRequestUpdater (coordinator w) with
               | Some u => [UpdaterStop u]
               | None => []
               end in
  (exists es, quiet es
              /\ trace (step w op) = trace w ++ es
              /\ currentPullRequestUpdater (coordinator (step w op))
                 = currentPullRequestUpdater (coordinator w)
              /\ nextUpdater (step w op) = nextUpdater w)
  \/ (trace (step w op) = trace w ++ stops
      /\ currentPullRequestUpdater (coordinator (step w op)) = None
      /\ nextUpdater (step w op) = nextUpdater w)
  \/ (exists gh account,
        trace (step w op)
        = trace w ++ stops ++ [NewPullRequestUpdater (nextUpdater w) gh account;
                               UpdaterStart (nextUpdater w)]
        /\ currentPullRequestUpdater (coordinator (step w op)) = Some (nextUpdater w)
        /\ nextUpdater (step w op) = S (nextUpdater w)).
Proof.
  intros stops.
  destruct op as [all|fn|fn|gh prs|gh b|r a|r|r a|]; cbn [step].
  - left. exists []. split; [constructor|]. by rewrite app_nil_r.
  - left. eexists. split; [|done]. by repeat constructor.
  - left. eexists. split; [|done]. by repeat constructor.
  - left. unfold exec.
    destruct (storePullRequestsChanged_Forall
                (fun e => effectUpdater e = None) gh prs w) as [c [es [Hs Hes]]];
      [done|].
    rewrite Hs. by exists es.
  - left. unfold exec.
    destruct (storeIsLoadingPullRequests_Forall
                (fun e => effectUpdater e = None) gh b w) as [c [es [Hs Hes]]];
      [done|].
    rewrite Hs. by exists es.
  - left. eexists. split; [|done]. by repeat constructor.
  - left. eexists. split; [|done]. by repeat constructor.
  - right. right. exists (gitHubRepository r), a.
    unfold exec. by rewrite startPullRequestUpdater_spec.
  - right. left. unfold exec. by rewrite stopPullRequestUpdater_spec.
Qed.

Lemma points_app t es :
  (forall n, (List.length (liveUpdaters (take n t)) <= 1)%nat) ->
  (forall k, (List.length (fold_left updaterStep (take k es) (liveUpdaters t)) <= 1)%nat) ->
  forall n, (List.length (liveUpdaters (take n (t ++ es))) <= 1)%nat.
Proof.
  intros Ht Hes n. rewrite take_app, liveUpdaters_app.
  destruct (decide (n < List.length t)%nat) as [Hlt|Hge].
  - replace (n - List.length t)%nat with 0%nat by lia. cbn. apply Ht.
  - rewrite (take_ge t n) by (unfold length in *; lia). apply Hes.
Qed.

Lemma newPullRequestCoordinator_consistent store :
  updatersConsistent (newPullRequestCoordinator store).
Proof.
  split; cbn.
  - by repeat constructor.
  - discriminate.
  - done.
  - intros [|n]; cbn; [lia|]. rewrite take_nil. cbn. lia.
Qed.

Lemma step_consistent w op :
  updatersConsistent w -> updatersConsistent (step w op).
Proof.
  intros [Htr Hcur Hlive Hpts].
  destruct (step_updaters w op)
    as [[es [Hq [Ht [Hc Hn]]]] | [[Ht [Hc Hn]] | [gh [a [Ht [Hc Hn]]]]]].
  - split.
    + rewrite Ht, Hn. apply Forall_app. split; [done|].
      eapply Forall_impl; [exact Hq|]. cbn. intros e He u Hu. congruence.
    + rewrite Hc, Hn. done.
    + by rewrite Ht, Hc, liveUpdaters_app, updaterStep_quiet.
    + rewrite Ht. apply points_app; [done|]. intros k.
      rewrite updaterStep_quiet by (by apply Forall_take).
      specialize (Hpts (List.length (trace w))).
      by rewrite take_ge in Hpts by done.
  - split.
    + rewrite Ht, Hn. apply Forall_app. split; [done|].
      destruct (currentPullRequestUpdater (coordinator w)) as [u|]; [|constructor].
      constructor; [|constructor]. cbn. intros v [= <-]. by apply Hcur.
    + rewrite Hc. discriminate.
    + rewrite Ht, Hc, liveUpdaters_app, Hlive.
      destruct (currentPullRequestUpdater (coordinator w)) as [u|]; [|done].
      cbn. by rewrite Nat.eqb_refl.
    + rewrite Ht. apply points_app; [done|]. intros k. rewrite Hlive.
      destruct (currentPullRequestUpdater (coordinator w)) as [u|];
        destruct k as [|k]; cbn; rewrite ?Nat.eqb_refl, ?take_nil; cbn; lia.
  - split.
    + rewrite Ht, Hn. apply Forall_app. split.
      * eapply Forall_impl; [exact Htr|]. cbn. intros e He u Hu.
        specialize (He u Hu). lia.
      * apply Forall_app. split.
        -- destruct (currentPullRequestUpdater (coordinator w)) as [u|]; [|constructor].
           constructor; [|constructor]. cbn. intros v [= <-].
           specialize (Hcur u eq_refl). lia.
        -- constructor; [|constructor; [|constructor]];
             cbn; intros v [= <-]; lia.
    + rewrite Hc, Hn. intros u [= <-]. lia.
    + rewrite Ht, Hc, liveUpdaters_app, Hlive.
      destruct (currentPullRequestUpdater (coordinator w)) as [u|]; cbn;
        by rewrite ?Nat.eqb_refl.
    + rewrite Ht. apply points_app; [done|]. intros k. rewrite Hlive.
      destruct (currentPullRequestUpdater (coordinator w)) as [u|];
        destruct k as [|[|[|k]]]; cbn; rewrite ?Nat.eqb_refl, ?take_nil; cbn; lia.
Qed.

Lemma run_consistent ops w :
  updatersConsistent w -> updatersConsistent (run ops w).
Proof.
  revert w. induction ops as [|op ops IH]; intros w Hw; [done|].
  rewrite run_cons. apply IH. by apply step_consistent.
Qed.

Lemma countStops_app u t es :
  countStops u (t ++ es) = (countStops u t + countStops u es)%nat.
Proof. unfold countStops. by rewrite List.filter_app, List.length_app. Qed.

Lemma countStarts_app u t es :
  countStarts u (t ++ es) = (countStarts u t + countStarts u es)%nat.
Proof. unfold countStarts. by rewrite List.filter_app, List.length_app. Qed.

Lemma countStops_untouched u es :
  Forall (fun e => effectUpdater e <> Some u) es -> countStops u es = 0%nat.
Proof.
  intros H. unfold countStops. induction H as [|e es He _ IH]; [done|].
  cbn [List.filter]. destruct e; cbn [isStopOf]; try exact IH.
  destruct (Nat.eqb_spec u0 u) as [->|_]; [by destruct He|exact IH].
Qed.

Lemma countStarts_not_started u es :
  Forall (fun e => isStartOf u e = false) es -> countStarts u es = 0%nat.
Proof.
  intros H. unfold countStarts. induction H as [|e es He _ IH]; [done|].
  cbn [List.filter]. by rewrite He.
Qed.

Lemma untouched_not_started u es :
  Forall (fun e => effectUpdater e <> Some u) es ->
  Forall (fun e => isStartOf u e = false) es.
Proof.
  intros H. eapply Forall_impl; [exact H|].
  intros e He. destruct e; try done. cbn in *.
  destruct (Nat.eqb_spec u0 u) as [->|_]; [by destruct He|done].
Qed.

(** An updater whose reference is still free has had no interaction. *)
Lemma fresh_untouched (n u : UpdaterRef) t :
  Forall (fun e => forall v, effectUpdater e = Some v -> (v < n)%nat) t ->
  (n <= u)%nat ->
  Forall (fun e => effectUpdater e <> Some u) t.
Proof.
  intros H Hle. eapply Forall_impl; [exact H|]. cbn.
  intros e He Hu. specialize (He u Hu). lia.
Qed.

(** One step, seen from an updater [u] that exists already: it is not
    started (again), and once it is no longer the current updater the
    coordinator has no interaction with it at all. *)
Lemma step_known w op (u : UpdaterRef) :
  (u < nextUpdater w)%nat ->
  exists es,
    trace (step w op) = trace w ++ es
    /\ (u < nextUpdater (step w op))%nat
    /\ Forall (fun e => isStartOf u e = false) es
    /\ (currentPullRequestUpdater (coordinator w) <> Some u ->
        Forall (fun e => effectUpdater e <> Some u) es
        /\ currentPullRequestUpdater (coordinator (step w op)) <> Some u).
Proof.
  intros Hu.
  destruct (step_updaters w op)
    as [[es [Hq [Ht [Hc Hn]]]] | [[Ht [Hc Hn]] | [gh [a [Ht [Hc Hn]]]]]].
  - exists es. split; [done|]. split; [lia|].
    assert (Hes : Forall (fun e => effectUpdater e <> Some u) es).
    { eapply Forall_impl; [exact Hq|]. cbn. intros e He. by rewrite He. }
    split; [by apply untouched_not_started|].
    intros Hcur. split; [done|]. by rewrite Hc.
  - eexists. split; [exact Ht|]. split; [lia|]. split.
    + destruct (currentPullRequestUpdater (coordinator w)); by repeat constructor.
    + intros Hcur. split; [|by rewrite Hc].
      destruct (currentPullRequestUpdater (coordinator w)) as [v|]; [|constructor].
      constructor; [|constructor]. cbn. congruence.
  - eexists. split; [exact Ht|]. split; [lia|].
    assert (Hnew : Forall (fun e => effectUpdater e <> Some u)
                     [NewPullRequestUpdater (nextUpdater w) gh a;
                      UpdaterStart (nextUpdater w)]).
    { constructor; [|constructor; [|constructor]]; cbn; intros [= H]; lia. }
    split.
    + apply Forall_app. split; [|by apply untouched_not_started].
      destruct (currentPullRequestUpdater (coordinator w)); by repeat constructor.
    + intros Hcur. split.
      * apply Forall_app. split; [|done].
        destruct (currentPullRequestUpdater (coordinator w)) as [v|]; [|constructor].
        constructor; [|constructor]. cbn. congruence.
      * rewrite Hc. intros [= H]. lia.
Qed.

Lemma run_known ops w (u : UpdaterRef) :
  (u < nextUpdater w)%nat ->
  exists es,
    trace (run ops w) = trace w ++ es
    /\ Forall (fun e => isStartOf u e = false) es
    /\ (currentPullRequestUpdater (coordinator w) <> Some u ->
        Forall (fun e => effectUpdater e <> Some u) es).
Proof.
  revert w. induction ops as [|op ops IH]; intros w Hu.
  - exists []. split; [by rewrite app_nil_r|]. split; [constructor|].
    intros _. constructor.
  - rewrite run_cons.
    destruct (step_known w op u Hu) as [es [Ht [Hu' [Hes Hret]]]].
    destruct (IH (step w op) Hu') as [es' [Ht' [Hes' Hret']]].
    exists (es ++ es'). split; [by rewrite Ht', Ht, app_assoc|].
    split; [apply Forall_app; by split|].
    intros Hcur. destruct (Hret Hcur) as [H1 H2].
    apply Forall_app. split; [done|]. by apply Hret'.
Qed.

(** C3.  Two calls of [startPullRequestUpdater] in succession, in any world
    a coordinator can reach and whatever follows them: the second call stops
    the first updater, builds the second and starts it, in this order; in the
    whole trace the first updater is stopped exactly once and the second is
    started exactly once; after the second call the coordinator has no
    interaction with the first updater any more; and at every point of the
    trace at most one updater is live. *)
Theorem startPullRequestUpdater_twice :
  forall (store : PullRequestStore) (before after : list Op)
         (r1 r2 : RepositoryWithGitHubRepository) (a1 a2 : Account),
    let w0 := run before (newPullRequestCoordinator store) in
    let w1 := exec (startPullRequestUpdater r1 a1) w0 in
    let w2 := exec (startPullRequestUpdater r2 a2) w1 in
    let w3 := run after w2 in
    let u1 := nextUpdater w0 in
    let u2 := nextUpdater w1 in
    currentPullRequestUpdater (coordinator w1) = Some u1
    /\ currentPullRequestUpdater (coordinator w2) = Some u2
    /\ u1 <> u2
    /\ emitted (startPullRequestUpdater r2 a2) w1
       = [UpdaterStop u1;
          NewPullRequestUpdater u2 (gitHubRepository r2) a2;
          UpdaterStart u2]
    /\ countStops u1 (trace w2) = 1%nat
    /\ countStarts u2 (trace w2) = 1%nat
    /\ countStops u1 (trace w3) = 1%nat
    /\ countStarts u2 (trace w3) = 1%nat
    /\ Forall (fun e => effectUpdater e <> Some u1)
         (drop (List.length (trace w2)) (trace w3))
    /\ (forall n, (List.length (liveUpdaters (take n (trace w3))) <= 1)%nat).
Proof.
  intros store before after r1 r2 a1 a2 w0 w1 w2 w3 u1 u2.
  assert (Hw0 : updatersConsistent w0)
    by apply run_consistent, newPullRequestCoordinator_consistent.
  assert (Hw1 : updatersConsistent w1)
    by apply (step_consistent w0 (StartPullRequestUpdater r1 a1) Hw0).
  assert (Hw2 : updatersConsistent w2)
    by apply (step_consistent w1 (StartPullRequestUpdater r2 a2) Hw1).
  assert (Hw3 : updatersConsistent w3) by by apply run_consistent.
  assert (Hc1 : currentPullRequestUpdater (coordinator w1) = Some u1)
    by (unfold w1, exec; by rewrite startPullRequestUpdater_spec).
  assert (Hn1 : u2 = S u1)
    by (unfold u2, w1, exec; by rewrite startPullRequestUpdater_spec).
  assert (Ht2 : trace w2
                = trace w1 ++ [UpdaterStop u1;
                               NewPullRequestUpdater u2 (gitHubRepository r2) a2;
                               UpdaterStart u2]).
  { unfold w2, exec. by rewrite startPullRequestUpdater_spec, Hc1. }
  assert (Hc2 : currentPullRequestUpdater (coordinator w2) = Some u2)
    by (unfold w2, exec; by rewrite startPullRequestUpdater_spec).
  assert (Hn2 : nextUpdater w2 = S u2)
    by (unfold w2, exec; by rewrite startPullRequestUpdater_spec).
  assert (Hfresh1 : Forall (fun e => effectUpdater e <> Some u2) (trace w1))
    by (apply (fresh_untouched u2); [apply Hw1|done]).
  assert (Hstops1 : countStops u1 (trace w1) = 0%nat).
  { unfold w1, exec. rewrite startPullRequestUpdater_spec. cbn [trace snd].
    rewrite app_assoc, countStops_app.
    rewrite (countStops_untouched u1 (trace w0 ++ _)); [done|].
    apply Forall_app. split.
    - apply (fresh_untouched u1); [apply Hw0|done].
    - pose proof (uc_current w0 Hw0) as Hcur.
      destruct (currentPullRequestUpdater (coordinator w0)) as [v|]; [|constructor].
      constructor; [|constructor]. cbn. intros [= ->].
      specialize (Hcur u1 eq_refl). unfold u1 in Hcur. lia. }
  assert (H2stops : countStops u1 (trace w2) = 1%nat).
  { rewrite Ht2, countStops_app, Hstops1. unfold countStops. cbn.
    by rewrite Nat.eqb_refl. }
  assert (H2starts : countStarts u2 (trace w2) = 1%nat).
  { rewrite Ht2, countStarts_app.
    rewrite (countStarts_not_started u2 (trace w1))
      by by apply untouched_not_started.
    unfold countStarts. cbn. by rewrite Nat.eqb_refl. }
  destruct (run_known after w2 u1) as [es [Ht3 [_ Hret1]]]; [rewrite Hn2; lia|].
  destruct (run_known after w2 u2) as [es' [Ht3' [Hnostart _]]]; [rewrite Hn2; lia|].
  assert (es' = es) as -> by (rewrite Ht3 in Ht3'; by apply app_inv_head in Ht3').
  assert (Hes : Forall (fun e => effectUpdater e <> Some u1) es).
  { apply Hret1. rewrite Hc2. intros [= H]. lia. }
  split; [done|]. split; [done|]. split; [lia|]. split.
  { unfold emitted, exec.
    change (snd (startPullRequestUpdater r2 a2 w1)) with w2.
    by rewrite Ht2, drop_app_length. }
  split; [done|]. split; [done|]. split.
  { fold w3 in Ht3. by rewrite Ht3, countStops_app, H2stops, countStops_untouched. }
  split.
  { fold w3 in Ht3.
    by rewrite Ht3, countStarts_app, H2starts, countStarts_not_started. }
  split.
  { fold w3 in Ht3. by rewrite Ht3, drop_app_length. }
  apply Hw3.
Qed.

Lemma snapshot_has_gitHubRepository_witness :
  gitHubRepository (asRepository cloneU) <> None
  /\ isRepositoryWithGitHubRepository (asRepository cloneF) = true.
Proof.
  pose proof (snapshot_has_gitHubRepository sampleStore
                [RepositoriesDidUpdate [asRepository cloneG; asRepository cloneU;
                                        scratch; asRepository cloneF];
                 OnPullRequestsChanged onChanged;
                 StorePullRequestsChanged desktopUpstream [pr101]])
    as [_ [_ [Hentry Hcalled]]].
  split.
  - apply Hentry. cbn. apply elem_of_cons. right. apply elem_of_cons. by left.
  - apply Hcalled. cbn. apply elem_of_cons. right. apply elem_of_cons. by left.
Defined.

(** ** Further properties of the matching *)

Lemma findRepositories_filter R (S : list RepositoryWithGitHubRepository) :
  findRepositoriesForGitHubRepository R S = filter (isFor R) S.
Proof. apply List_filter_decide. intros L. apply matchesGitHubRepository_isFor. Qed.

(** X1.  The matches are taken from the snapshot and nothing else: they form
    a sublist of it (no entry invented, repeated or moved), and matching the
    matches again gives the same list. *)
Theorem findRepositories_sublist_idempotent :
  forall (R : GitHubRepository) (S : list RepositoryWithGitHubRepository),
    findRepositoriesForGitHubRepository R S `sublist_of` S
    /\ findRepositoriesForGitHubRepository R
         (findRepositoriesForGitHubRepository R S)
       = findRepositoriesForGitHubRepository R S.
Proof.
  intros R S. rewrite !findRepositories_filter. split.
  - apply sublist_filter.
  - by apply list_filter_filter_l.
Qed.

(** X2.  A local repository of the snapshot is matched by the events about
    its own remote and by the events about the parent of its remote; the
    test goes one level up and no further, so that an event about another
    repository - the parent of the parent, say - does not reach it. *)
Theorem fork_matched_by_remote_and_parent :
  forall (L : RepositoryWithGitHubRepository)
         (S : list RepositoryWithGitHubRepository),
    L ∈ S ->
    L ∈ findRepositoriesForGitHubRepository (gitHubRepository L) S
    /\ (forall p, parent (gitHubRepository L) = Some p ->
                  L ∈ findRepositoriesForGitHubRepository p S)
    /\ (forall R, dbID R <> dbID (gitHubRepository L) ->
                  (forall p, parent (gitHubRepository L) = Some p ->
                             dbID R <> dbID p) ->
                  L ∉ findRepositoriesForGitHubRepository R S).
Proof.
  intros L S HL. split; [|split].
  - apply elem_of_findRepositories. split; [done|]. by left.
  - intros p Hp. apply elem_of_findRepositories. split; [done|].
    right. split; [congruence|]. by exists p.
  - intros R Hown Hparent [_ Hm]%elem_of_findRepositories.
    destruct Hm as [H|[_ [p [Hp H]]]]; [congruence|].
    by apply (Hparent p Hp).
Qed.

Lemma fork_matched_by_remote_and_parent_witness :
  cloneF ∈ findRepositoriesForGitHubRepository desktopUpstream
             [cloneG; cloneU; cloneF]
  /\ mkRepository 5 "/src/fork-of-fork"
       (mkGitHubRepository 8 "other/desktop" (Some desktopFork))
     ∉ findRepositoriesForGitHubRepository desktopUpstream
         [mkRepository 5 "/src/fork-of-fork"
            (mkGitHubRepository 8 "other/desktop" (Some desktopFork))].
Proof.
  split.
  - apply (fork_matched_by_remote_and_parent cloneF [cloneG; cloneU; cloneF]).
    + do 2 (apply elem_of_cons; right). apply elem_of_cons. by left.
    + reflexivity.
  - apply (fork_matched_by_remote_and_parent
             (mkRepository 5 "/src/fork-of-fork"
                (mkGitHubRepository 8 "other/desktop" (Some desktopFork)))).
    + apply elem_of_cons. by left.
    + discriminate.
    + intros p [= <-]. discriminate.
Defined.

(** ** What a whole run leaves in the trace *)

(** The effects of one step, spelled out. *)
Lemma step_effects w op :
  trace (step w op)
  = trace w ++
    match op with
    | RepositoriesDidUpdate _ => []
    | OnPullRequestsChanged fn => [StoreOnPullRequestsChanged fn]
    | OnIsLoadingPullRequests fn => [StoreOnIsLoadingPullRequests fn]
    | StorePullRequestsChanged ghRepo prs =>
        dispatched (store_rethrows (pullRequestStore (coordinator w)))
          (map (fun fn => callsPullRequestsChanged fn prs
                            (findRepositoriesForGitHubRepository ghRepo
                               (repositories (coordinator w))))
             (pullRequestsChangedListeners w))
    | StoreIsLoadingPullRequests ghRepo b =>
        dispatched (store_rethrows (pullRequestStore (coordinator w)))
          (map (fun fn => callsIsLoadingPullRequests fn b
                            (findRepositoriesForGitHubRepository ghRepo
                               (repositories (coordinator w))))
             (isLoadingListeners w))
    | RefreshPullRequests r a => [StoreRefreshPullRequests (gitHubRepository r) a]
    | GetAllPullRequests r => [StoreGetAll (gitHubRepository r)]
    | StartPullRequestUpdater r a =>
        match currentPullRequestUpdater (coordinator w) with
        | Some u => [UpdaterStop u]
        | None => []
        end ++ [NewPullRequestUpdater (nextUpdater w) (gitHubRepository r) a;
                UpdaterStart (nextUpdater w)]
    | StopPullRequestUpdater =>
        match currentPullRequestUpdater (coordinator w) with
        | Some u => [UpdaterStop u]
        | None => []
        end
    end.
Proof.
  destruct op as [all|fn|fn|gh prs|gh b|r a|r|r a|]; cbn [step];
    try (cbn; by rewrite ?app_nil_r).
  - unfold exec. by rewrite storePullRequestsChanged_spec.
  - unfold exec. by rewrite storeIsLoadingPullRequests_spec.
  - unfold exec. by rewrite startPullRequestUpdater_spec.
  - unfold exec. by rewrite stopPullRequestUpdater_spec.
Qed.

Lemma filter_none (f : Effect -> bool) (es : list Effect) :
  Forall (fun e => f e = false) es -> List.filter f es = [].
Proof.
  induction 1 as [|e es He _ IH]; [done|]. cbn [List.filter]. by rewrite He.
Qed.

(** The calls of callbacks that an event leaves in the trace. *)
Lemma dispatched_calls_Forall (P : Effect -> Prop) rethrows
    (calls : Callback -> list Effect) (fns : list Callback) :
  (forall fn, Forall P (calls fn)) ->
  Forall P (dispatched rethrows (map calls fns)).
Proof.
  intros H. apply dispatched_Forall, Forall_forall.
  by intros es [fn [-> _]]%list_elem_of_fmap.
Qed.

Lemma step_store_calls w op :
  List.filter isStoreCall (trace (step w op))
  = List.filter isStoreCall (trace w) ++ option_list (storeCall op).
Proof.
  rewrite step_effects, List.filter_app. f_equal.
  destruct op as [all|fn|fn|gh prs|gh b|r a|r|r a|]; try done.
  - apply filter_none, dispatched_calls_Forall. intros fn.
    by apply callsPullRequestsChanged_Forall.
  - apply filter_none, dispatched_calls_Forall. intros fn.
    by apply callsIsLoadingPullRequests_Forall.
  - by destruct (currentPullRequestUpdater (coordinator w)).
  - by destruct (currentPullRequestUpdater (coordinator w)).
Qed.

(** X3.  The coordinator calls the pull request store only when one of its
    four methods [onPullRequestsChanged], [onIsLoadingPullRequests],
    [refreshPullRequests] and [getAllPullRequests] is called, once per call
    and in the order of the calls: a subscription for the callback passed,
    or a request for the [gitHubRepository] of the repository passed.
    Updates of the repositories, events of the store and the starting and
    stopping of updaters never make it call the store. *)
Theorem store_calls_follow_requests :
  forall (w : World) (ops : list Op),
    List.filter isStoreCall (trace (run ops w))
    = List.filter isStoreCall (trace w) ++ omap storeCall ops.
Proof.
  intros w ops. revert w. induction ops as [|op ops IH]; intros w.
  - cbn. by rewrite app_nil_r.
  - rewrite run_cons, IH, step_store_calls, <- app_assoc. f_equal.
    cbn [omap list_omap]. by destruct (storeCall op).
Qed.

Lemma elem_of_registeredPullRequestsChanged fn ops :
  fn ∈ registeredPullRequestsChanged ops <-> OnPullRequestsChanged fn ∈ ops.
Proof.
  unfold registeredPullRequestsChanged. rewrite list_elem_of_omap. split.
  - intros [op [Hop H]]. destruct op; try discriminate H. by injection H as ->.
  - intros H. by exists (OnPullRequestsChanged fn).
Qed.

Lemma elem_of_registeredIsLoadingPullRequests fn ops :
  fn ∈ registeredIsLoadingPullRequests ops <-> OnIsLoadingPullRequests fn ∈ ops.
Proof.
  unfold registeredIsLoadingPullRequests. rewrite list_elem_of_omap. split.
  - intros [op [Hop H]]. destruct op; try discriminate H. by injection H as ->.
  - intros H. by exists (OnIsLoadingPullRequests fn).
Qed.

Lemma untilThrow_length es : (List.length (untilThrow es) <= List.length es)%nat.
Proof.
  induction es as [|e es IH]; [done|]. cbn.
  destruct (effectThrows e); cbn; lia.
Qed.

Lemma dispatched_length rethrows ess n :
  Forall (fun es => List.length es = n) ess ->
  (List.length (dispatched rethrows ess) <= List.length ess * n)%nat.
Proof.
  induction 1 as [|es ess Hes _ IH]; [done|].
  cbn. rewrite List.length_app. pose proof (untilThrow_length es).
  destruct (rethrows && existsb effectThrows es); cbn; lia.
Qed.

Lemma concat_length_const (ess : list (list Effect)) n :
  Forall (fun es => List.length es = n) ess ->
  List.length (concat ess) = (List.length ess * n)%nat.
Proof.
  induction 1 as [|es ess Hes _ IH]; [done|].
  cbn. rewrite List.length_app. lia.
Qed.

(** X4.  An event of the store reaches the callbacks registered for that
    kind of event and no others.  In every world that a coordinator can
    reach, what a pull-requests-changed event emits are calls of callbacks
    that were registered through [onPullRequestsChanged], each for a
    repository of the snapshot associated with the event's repository and
    each with the event's list; there are at most as many calls as
    registrations times matches, and exactly as many when none of the
    registered callbacks throws.  Likewise for a loading event and
    [onIsLoadingPullRequests]. *)
Theorem events_reach_their_listeners :
  forall (store : PullRequestStore) (ops : list Op) (ghRepo : GitHubRepository)
         (pullRequests : list PullRequest) (isLoading : bool),
    let w := run ops (newPullRequestCoordinator store) in
    let matches :=
      findRepositoriesForGitHubRepository ghRepo (repositories (coordinator w)) in
    Forall (fun e => exists fn r,
                e = CallPullRequestsChanged fn r pullRequests
                /\ OnPullRequestsChanged fn ∈ ops
                /\ r ∈ repositories (coordinator w) /\ isFor ghRepo r)
      (emitted (storePullRequestsChanged ghRepo pullRequests) w)
    /\ (List.length (emitted (storePullRequestsChanged ghRepo pullRequests) w)
        <= List.length (registeredPullRequestsChanged ops) * List.length matches)%nat
    /\ ((forall fn r, OnPullRequestsChanged fn ∈ ops -> r ∈ matches ->
                      throwsFor fn r (PullRequestsPayload pullRequests) = false) ->
        List.length (emitted (storePullRequestsChanged ghRepo pullRequests) w)
        = (List.length (registeredPullRequestsChanged ops) * List.length matches)%nat)
    /\ Forall (fun e => exists fn r,
                   e = CallIsLoadingPullRequests fn r isLoading
                   /\ OnIsLoadingPullRequests fn ∈ ops
                   /\ r ∈ repositories (coordinator w) /\ isFor ghRepo r)
         (emitted (storeIsLoadingPullRequests ghRepo isLoading) w)
    /\ (List.length (emitted (storeIsLoadingPullRequests ghRepo isLoading) w)
        <= List.length (registeredIsLoadingPullRequests ops) * List.length matches)%nat
    /\ ((forall fn r, OnIsLoadingPullRequests fn ∈ ops -> r ∈ matches ->
                      throwsFor fn r (IsLoadingPayload isLoading) = false) ->
        List.length (emitted (storeIsLoadingPullRequests ghRepo isLoading) w)
        = (List.length (registeredIsLoadingPullRequests ops) * List.length matches)%nat).
Proof.
  intros store ops gh prs b w matches.
  destruct (run_listeners store ops) as [HregisteredP HregisteredL].
  fold w in HregisteredP, HregisteredL.
  rewrite (emitted_appendTrace _ _ _ _ (storePullRequestsChanged_spec _ _ _)).
  rewrite (emitted_appendTrace _ _ _ _ (storeIsLoadingPullRequests_spec _ _ _)).
  rewrite HregisteredP, HregisteredL. fold matches.
  assert (HlenP : Forall (fun es => List.length es = List.length matches)
                    (map (fun fn => callsPullRequestsChanged fn prs matches)
                       (registeredPullRequestsChanged ops))).
  { apply Forall_forall. intros es [fn [-> _]]%list_elem_of_fmap.
    unfold callsPullRequestsChanged. apply List.length_map. }
  assert (HlenL : Forall (fun es => List.length es = List.length matches)
                    (map (fun fn => callsIsLoadingPullRequests fn b matches)
                       (registeredIsLoadingPullRequests ops))).
  { apply Forall_forall. intros es [fn [-> _]]%list_elem_of_fmap.
    unfold callsIsLoadingPullRequests. apply List.length_map. }
  split; [|split; [|split; [|split; [|split]]]].
  - apply dispatched_Forall, Forall_forall.
    intros es [fn [-> Hfn]]%list_elem_of_fmap.
    apply callsPullRequestsChanged_Forall. intros r Hr.
    apply elem_of_findRepositories in Hr as [Hr Hm]. exists fn, r.
    by rewrite <- elem_of_registeredPullRequestsChanged.
  - pose proof (dispatched_length
                  (store_rethrows (pullRequestStore (coordinator w))) _ _ HlenP) as H.
    by rewrite List.length_map in H.
  - intros Hall.
    destruct (dispatched_returning
                (store_rethrows (pullRequestStore (coordinator w)))
                (map (fun fn => callsPullRequestsChanged fn prs matches)
                   (registeredPullRequestsChanged ops))) as [-> _].
    + apply Forall_forall. intros es [fn [-> Hfn]]%list_elem_of_fmap.
      apply returning_callsPullRequestsChanged. intros r Hr. apply Hall; [|done].
      by apply elem_of_registeredPullRequestsChanged.
    + by rewrite (concat_length_const _ _ HlenP), List.length_map.
  - apply dispatched_Forall, Forall_forall.
    intros es [fn [-> Hfn]]%list_elem_of_fmap.
    apply callsIsLoadingPullRequests_Forall. intros r Hr.
    apply elem_of_findRepositories in Hr as [Hr Hm]. exists fn, r.
    by rewrite <- elem_of_registeredIsLoadingPullRequests.
  - pose proof (dispatched_length
                  (store_rethrows (pullRequestStore (coordinator w))) _ _ HlenL) as H.
    by rewrite List.length_map in H.
  - intros Hall.
    destruct (dispatched_returning
                (store_rethrows (pullRequestStore (coordinator w)))
                (map (fun fn => callsIsLoadingPullRequests fn b matches)
                   (registeredIsLoadingPullRequests ops))) as [-> _].
    + apply Forall_forall. intros es [fn [-> Hfn]]%list_elem_of_fmap.
      apply returning_callsIsLoadingPullRequests. intros r Hr. apply Hall; [|done].
      by apply elem_of_registeredIsLoadingPullRequests.
    + by rewrite (concat_length_const _ _ HlenL), List.length_map.
Qed.

Lemma events_reach_their_listeners_witness :
  List.length (emitted (storePullRequestsChanged desktopUpstream [pr101]) sampleWorld)
  = 2%nat
  /\ List.length (emitted (storeIsLoadingPullRequests desktopUpstream true) sampleWorld)
     = 2%nat.
Proof.
  pose proof (events_reach_their_listeners sampleStore
                [RepositoriesDidUpdate [asRepository cloneG; asRepository cloneU;
                                        scratch; asRepository cloneF];
                 OnPullRequestsChanged onChanged;
                 OnIsLoadingPullRequests onLoading]
                desktopUpstream [pr101] true)
    as [_ [_ [HP [_ [_ HL]]]]].
  split.
  - refine (HP _). intros fn r Hfn _.
    rewrite !elem_of_cons, elem_of_nil in Hfn.
    destruct Hfn as [Hfn|[Hfn|[Hfn|[]]]]; try discriminate Hfn.
    by injection Hfn as ->.
  - refine (HL _). intros fn r Hfn _.
    rewrite !elem_of_cons, elem_of_nil in Hfn.
    destruct Hfn as [Hfn|[Hfn|[Hfn|[]]]]; try discriminate Hfn.
    by injection Hfn as ->.
Defined.
(** ** The life of an updater *)

Lemma countNews_app u t es :
  countNews u (t ++ es) = (countNews u t + countNews u es)%nat.
Proof. unfold countNews. by rewrite List.filter_app, List.length_app. Qed.

Lemma countNews_untouched u es :
  Forall (fun e => effectUpdater e <> Some u) es -> countNews u es = 0%nat.
Proof.
  intros H. unfold countNews. induction H as [|e es He _ IH]; [done|].
  cbn [List.filter]. destruct e; cbn [isNewOf]; try exact IH.
  destruct (Nat.eqb_spec u0 u) as [->|_]; [by destruct He|exact IH].
Qed.

Lemma quiet_untouched u es :
  quiet es -> Forall (fun e => effectUpdater e <> Some u) es.
Proof.
  intros H. eapply Forall_impl; [exact H|]. cbn. intros e He. by rewrite He.
Qed.

Lemma step_updaterCounts w op u :
  updatersConsistent w -> updaterCounts w u -> updaterCounts (step w op) u.
Proof.
  intros Hw [Hnews [Hstarts Hstops]]. unfold updaterCounts.
  pose proof (uc_current w Hw) as Hcur.
  destruct (step_updaters w op)
    as [[es [Hq [Ht [Hc Hn]]]] | [[Ht [Hc Hn]] | [gh [a [Ht [Hc Hn]]]]]];
    rewrite Ht, Hc, Hn, ?countNews_app, ?countStarts_app, ?countStops_app,
      Hnews, Hstarts, Hstops.
  - pose proof (quiet_untouched u es Hq) as Hes.
    rewrite countNews_untouched, countStops_untouched by done.
    rewrite countStarts_not_started by by apply untouched_not_started.
    repeat split; lia.
  - destruct (currentPullRequestUpdater (coordinator w)) as [v|] eqn:E.
    + specialize (Hcur v eq_refl).
      unfold countNews, countStarts, countStops. cbn.
      destruct (Nat.eqb_spec v u) as [->|Hne]; cbn;
        repeat case_decide; repeat split; try lia; exfalso; intuition congruence.
    + unfold countNews, countStarts, countStops. cbn.
      repeat case_decide; repeat split; try lia; exfalso; intuition congruence.
  - destruct (currentPullRequestUpdater (coordinator w)) as [v|] eqn:E.
    + specialize (Hcur v eq_refl).
      unfold countNews, countStarts, countStops. cbn.
      destruct (Nat.eqb_spec v u) as [->|Hne];
        destruct (Nat.eqb_spec (nextUpdater w) u) as [<-|Hne']; cbn;
        repeat case_decide; repeat split; try lia; exfalso; intuition (congruence || lia).
    + unfold countNews, countStarts, countStops. cbn.
      destruct (Nat.eqb_spec (nextUpdater w) u) as [<-|Hne']; cbn;
        repeat case_decide; repeat split; try lia; exfalso; intuition (congruence || lia).
Qed.

Lemma run_updaterCounts ops w u :
  updatersConsistent w -> updaterCounts w u -> updaterCounts (run ops w) u.
Proof.
  revert w. induction ops as [|op ops IH]; intros w Hw Hu; [done|].
  rewrite run_cons. apply IH; [by apply step_consistent|].
  by apply step_updaterCounts.
Qed.

(** X5.  In every world a coordinator can reach, every updater it has built
    was built once and started once, and it was stopped once if it is no
    longer the current updater and never if it still is: no updater is
    started twice, stopped twice, or left running after it was replaced. *)
Theorem updater_built_started_stopped_once :
  forall (store : PullRequestStore) (ops : list Op) (u : UpdaterRef),
    let w := run ops (newPullRequestCoordinator store) in
    countNews u (trace w) = (if decide (u < nextUpdater w)%nat then 1 else 0)%nat
    /\ countStarts u (trace w) = (if decide (u < nextUpdater w)%nat then 1 else 0)%nat
    /\ countStops u (trace w)
       = (if decide ((u < nextUpdater w)%nat
                     /\ currentPullRequestUpdater (coordinator w) <> Some u)
          then 1 else 0)%nat.
Proof.
  intros store ops u.
  apply (run_updaterCounts ops (newPullRequestCoordinator store) u).
  - apply newPullRequestCoordinator_consistent.
  - unfold updaterCounts. cbn. repeat case_decide; repeat split; lia.
Qed.

(** X6.  In every world a coordinator can reach: after
    [startPullRequestUpdater] the updater just built, and no other, is live;
    after [stopPullRequestUpdater] no updater is live and none is current,
    whether or not one was active before. *)
Theorem live_after_start_and_after_stop :
  forall (store : PullRequestStore) (ops : list Op)
         (r : RepositoryWithGitHubRepository) (a : Account),
    let w := run ops (newPullRequestCoordinator store) in
    liveUpdaters (trace (exec (startPullRequestUpdater r a) w)) = [nextUpdater w]
    /\ currentPullRequestUpdater (coordinator (exec (startPullRequestUpdater r a) w))
       = Some (nextUpdater w)
    /\ liveUpdaters (trace (exec stopPullRequestUpdater w)) = []
    /\ currentPullRequestUpdater (coordinator (exec stopPullRequestUpdater w)) = None.
Proof.
  intros store ops r a w.
  assert (Hw : updatersConsistent w)
    by apply run_consistent, newPullRequestCoordinator_consistent.
  pose proof (step_consistent w (StartPullRequestUpdater r a) Hw) as Hstart.
  pose proof (step_consistent w StopPullRequestUpdater Hw) as Hstop.
  apply uc_live in Hstart. apply uc_live in Hstop. cbn [step] in Hstart, Hstop.
  assert (Hc : currentPullRequestUpdater
                 (coordinator (exec (startPullRequestUpdater r a) w))
               = Some (nextUpdater w))
    by (unfold exec; by rewrite startPullRequestUpdater_spec).
  pose proof (stopPullRequestUpdater_current w) as Hc'.
  rewrite Hc in Hstart. rewrite Hc' in Hstop. done.
Qed.

Lemma step_not_updater w op :
  isUpdaterOp op = false ->
  currentPullRequestUpdater (coordinator (step w op))
  = currentPullRequestUpdater (coordinator w)
  /\ nextUpdater (step w op) = nextUpdater w
  /\ exists es, trace (step w op) = trace w ++ es /\ quiet es.
Proof.
  intros Hop.
  destruct op as [all|fn|fn|gh prs|gh b|r a|r|r a|]; try discriminate Hop;
    cbn [step].
  - repeat split; try done. exists []. split; [by rewrite app_nil_r|constructor].
  - repeat split; try done. eexists. split; [done|]. by repeat constructor.
  - repeat split; try done. eexists. split; [done|]. by repeat constructor.
  - unfold exec.
    destruct (storePullRequestsChanged_Forall
                (fun e => effectUpdater e = None) gh prs w) as [c [es [Hs Hes]]];
      [done|].
    rewrite Hs. repeat split; try done. by exists es.
  - unfold exec.
    destruct (storeIsLoadingPullRequests_Forall
                (fun e => effectUpdater e = None) gh b w) as [c [es [Hs Hes]]];
      [done|].
    rewrite Hs. repeat split; try done. by exists es.
  - repeat split; try done. eexists. split; [done|]. by repeat constructor.
  - repeat split; try done. eexists. split; [done|]. by repeat constructor.
Qed.

(** X7.  The coordinator builds, starts and stops updaters only when asked
    to: as long as neither [startPullRequestUpdater] nor
    [stopPullRequestUpdater] is called, whatever else happens - updates of
    the repositories, events of the store, registrations, requests for pull
    requests - there is no current updater and the trace holds no
    interaction with any updater. *)
Theorem no_updater_unless_started :
  forall (store : PullRequestStore) (ops : list Op),
    Forall (fun op => isUpdaterOp op = false) ops ->
    let w := run ops (newPullRequestCoordinator store) in
    quiet (trace w)
    /\ currentPullRequestUpdater (coordinator w) = None
    /\ liveUpdaters (trace w) = [].
Proof.
  intros store ops. induction ops as [|op ops IH] using rev_ind; intros Hops.
  - cbn. split; [by repeat constructor|done].
  - apply Forall_app in Hops as [Hops Hop].
    apply Forall_cons in Hop as [Hop _].
    cbn zeta in *. rewrite run_snoc.
    destruct (IH Hops) as [IHq [IHc IHl]].
    destruct (step_not_updater (run ops (newPullRequestCoordinator store)) op Hop)
      as [Hc [_ [es [Ht Hes]]]].
    rewrite Ht, Hc. split; [by apply Forall_app|]. split; [done|].
    by rewrite liveUpdaters_app, updaterStep_quiet.
Qed.

Lemma no_updater_unless_started_witness :
  quiet (trace (run [StorePullRequestsChanged desktopUpstream [pr101];
                     RefreshPullRequests cloneU octocat] sampleWorld)).
Proof.
  apply (no_updater_unless_started sampleStore
           [RepositoriesDidUpdate [asRepository cloneG; asRepository cloneU; scratch;
                                   asRepository cloneF];
            OnPullRequestsChanged onChanged;
            OnIsLoadingPullRequests onLoading;
            StorePullRequestsChanged desktopUpstream [pr101];
            RefreshPullRequests cloneU octocat]).
  by repeat constructor.
Defined.

Lemma not_new_in (es : list Effect) u gh a :
  Forall (fun e => isNew e = false) es ->
  NewPullRequestUpdater u gh a ∉ es.
Proof.
  intros H Hin. rewrite Forall_forall in H. by specialize (H _ Hin).
Qed.

(** X8.  Every updater the coordinator builds is built for the
    [gitHubRepository] of the repository and for the account of some call of
    [startPullRequestUpdater], and it is started at once: in the trace its
    construction is directly followed by its [start()]. *)
Theorem updater_built_for_request_and_started :
  forall (store : PullRequestStore) (ops : list Op)
         (u : UpdaterRef) (gh : GitHubRepository) (account : Account),
    let w := run ops (newPullRequestCoordinator store) in
    NewPullRequestUpdater u gh account ∈ trace w ->
    (exists repository,
        StartPullRequestUpdater repository account ∈ ops
        /\ gh = gitHubRepository repository)
    /\ (exists before after,
          trace w = before ++ NewPullRequestUpdater u gh account
                             :: UpdaterStart u :: after).
Proof.
  intros store ops u gh account.
  induction ops as [|op ops IH] using rev_ind; cbn zeta in *.
  - cbn. intros H%list_elem_of_singleton. discriminate H.
  - rewrite run_snoc, step_effects.
    set (w := run ops (newPullRequestCoordinator store)) in *.
    intros [Hold|Hnew]%elem_of_app.
    + destruct (IH Hold) as [[r [Hr Hgh]] [pre [post Ht]]]. split.
      * exists r. split; [|done]. apply elem_of_app. by left.
      * exists pre. eexists. rewrite Ht, <- app_assoc. cbn. reflexivity.
    + destruct op as [all|fn|fn|gh' prs|gh' b|r a|r|r a|].
      * by apply elem_of_nil in Hnew.
      * apply list_elem_of_singleton in Hnew. discriminate Hnew.
      * apply list_elem_of_singleton in Hnew. discriminate Hnew.
      * exfalso. revert Hnew. apply not_new_in, dispatched_calls_Forall.
        intros fn. by apply callsPullRequestsChanged_Forall.
      * exfalso. revert Hnew. apply not_new_in, dispatched_calls_Forall.
        intros fn. by apply callsIsLoadingPullRequests_Forall.
      * apply list_elem_of_singleton in Hnew. discriminate Hnew.
      * apply list_elem_of_singleton in Hnew. discriminate Hnew.
      * apply elem_of_app in Hnew as [Hnew|Hnew].
        { destruct (currentPullRequestUpdater (coordinator w));
            [apply list_elem_of_singleton in Hnew; discriminate Hnew
            |by apply elem_of_nil in Hnew]. }
        apply elem_of_cons in Hnew as [Hnew|Hnew];
          [|apply list_elem_of_singleton in Hnew; discriminate Hnew].
        injection Hnew as -> -> ->. split.
        -- exists r. split; [|done]. apply elem_of_app. right.
           apply elem_of_cons. by left.
        -- eexists. exists []. by rewrite app_assoc.
      * destruct (currentPullRequestUpdater (coordinator w));
          [apply list_elem_of_singleton in Hnew; discriminate Hnew
          |by apply elem_of_nil in Hnew].
Qed.

Lemma updater_built_for_request_and_started_witness :
  exists repository,
    StartPullRequestUpdater repository octocat
    ∈ [StartPullRequestUpdater cloneU octocat; StartPullRequestUpdater cloneF octocat]
    /\ desktopFork = gitHubRepository repository.
Proof.
  apply (updater_built_for_request_and_started sampleStore
           [StartPullRequestUpdater cloneU octocat;
            StartPullRequestUpdater cloneF octocat]
           1%nat desktopFork octocat).
  cbn. do 4 (apply elem_of_cons; right). apply elem_of_cons. by left.
Defined.

(** ** Further properties of [formatAsLocalRef] *)

Lemma prefix_heads_app (s : string) :
  String.prefix "heads/" ("heads/" ++ s)%string = true.
Proof. apply prefix_app_iff. by exists s. Qed.

(** X9.  Two names are formatted as the same ref exactly when they are
    equal or one is the other with "heads/" in front, the other not starting
    with "heads/" itself: the short and the explicit name of a branch give
    one ref, and no two other names do. *)
Theorem formatAsLocalRef_same_ref :
  forall a b : string,
    formatAsLocalRef a = formatAsLocalRef b
    <-> a = b
        \/ (a = ("heads/" ++ b)%string /\ String.prefix "heads/" b = false)
        \/ (b = ("heads/" ++ a)%string /\ String.prefix "heads/" a = false).
Proof.
  intros a b. unfold formatAsLocalRef. split.
  - destruct (String.prefix "heads/" a) eqn:Ea, (String.prefix "heads/" b) eqn:Eb;
      cbn; intros H.
    + left. by injection H.
    + right. left. split; [|done]. by injection H.
    + right. right. split; [|done]. by injection H.
    + left. by injection H.
  - intros [->|[[-> Hb]|[-> Ha]]]; [done| |].
    + by rewrite prefix_heads_app, Hb.
    + by rewrite prefix_heads_app, Ha.
Qed.

Lemma string_app_length (s t : string) :
  String.length (s ++ t)%string = (String.length s + String.length t)%nat.
Proof. induction s as [|c s IH]; [done|]. cbn. by rewrite IH. Qed.

(** X10.  A ref that is already fully qualified is not recognised as such:
    formatting the result of a formatting puts "refs/heads/" in front of it
    once more, so that formatting twice never gives what formatting once
    gives. *)
Theorem formatAsLocalRef_not_idempotent :
  forall name : string,
    formatAsLocalRef (formatAsLocalRef name)
    = ("refs/heads/" ++ formatAsLocalRef name)%string
    /\ formatAsLocalRef (formatAsLocalRef name) <> formatAsLocalRef name.
Proof.
  intros name.
  assert (H : formatAsLocalRef (formatAsLocalRef name)
              = ("refs/heads/" ++ formatAsLocalRef name)%string).
  { unfold formatAsLocalRef.
    destruct (String.prefix "heads/" name); reflexivity. }
  split; [done|]. rewrite H. intros Heq.
  apply (f_equal String.length) in Heq. rewrite string_app_length in Heq.
  cbn in Heq. lia.
Qed.

(** ** The commit list item *)

Lemma strictEqualsOptional_eq (x y : option string) :
  CommitListItem.strictEqualsOptional x y = true -> x = y.
Proof.
  destruct x as [a|], y as [b|]; cbn; try done.
  intros H%String.eqb_eq. by rewrite H.
Qed.

(** What [shouldComponentUpdate] compares, when it answers [false]. *)
Lemma shouldComponentUpdate_false env props next :
  CommitListItem.shouldComponentUpdate env props next = false ->
  CommitListItem.sha (CommitListItem.commit props)
  = CommitListItem.sha (CommitListItem.commit next)
  /\ CommitListItem.showUnpushedIndicator props
     = CommitListItem.showUnpushedIndicator next
  /\ CommitListItem.unpushedIndicatorTitle props
     = CommitListItem.unpushedIndicatorTitle next
  /\ CommitListItem.arrayEquals env
       (CommitListItem.tags (CommitListItem.commit props))
       (CommitListItem.tags (CommitListItem.commit next)) = true.
Proof.
  unfold CommitListItem.shouldComponentUpdate.
  rewrite !orb_false_iff, !negb_false_iff.
  intros [[[Hsha Hshow] Htitle] Htags].
  split; [by apply String.eqb_eq|]. split; [by apply Bool.eqb_prop|].
  split; [by apply strictEqualsOptional_eq|done].
Qed.

(** X11.  A skipped update leaves no stale indicator: when
    [shouldComponentUpdate] answers [false] for the next props, the two
    renderers of the indicators of a row give for the next props what they
    gave for the current ones - [renderCommitListItemTags] for the tags of
    the commit and [renderUnpushedIndicator].  [arrayEquals] is assumed to
    answer [true] only for equal arrays. *)
Theorem skipped_update_keeps_indicators :
  forall (env : CommitListItem.Environment)
         (props next : CommitListItem.ICommitProps),
    (forall x y, CommitListItem.arrayEquals env x y = true -> x = y) ->
    CommitListItem.shouldComponentUpdate env props next = false ->
    CommitListItem.renderCommitListItemTags
      (CommitListItem.tags (CommitListItem.commit next))
    = CommitListItem.renderCommitListItemTags
        (CommitListItem.tags (CommitListItem.commit props))
    /\ CommitListItem.renderUnpushedIndicator next
       = CommitListItem.renderUnpushedIndicator props.
Proof.
  intros env props next Hsound Hskip.
  apply shouldComponentUpdate_false in Hskip as [_ [Hshow [Htitle Htags]]].
  apply Hsound in Htags. unfold CommitListItem.renderUnpushedIndicator.
  by rewrite Htags, Hshow, Htitle.
Qed.

Lemma skipped_update_keeps_indicators_witness :
  CommitListItem.renderUnpushedIndicator
    (CommitListItem.mkProps None sampleCommit [] true None (Some 7%nat) None
       (Some [("octocat", "The Octocat")]) true (Some "1 unpushed commit"))
  = CommitListItem.renderUnpushedIndicator sampleProps.
Proof.
  apply (skipped_update_keeps_indicators sampleEnvironment sampleProps
           (CommitListItem.mkProps None sampleCommit [] true None (Some 7%nat) None
              (Some [("octocat", "The Octocat")]) true (Some "1 unpushed commit"))).
  - intros x y H. cbn in H. by destruct (List.list_eq_dec String.string_dec x y).
  - reflexivity.
Defined.

(** X12.  The items "Revert this commit" and "Create Tag" are enabled
    exactly when choosing them does something: when the handler
    [onRevertCommit] (or [onCreateTag]) was passed as a prop, the item is
    enabled and choosing it calls that handler, once, with this commit (to
    revert) or with its sha (to tag); when it was not passed, the item is
    disabled and choosing it would call nothing. *)
Theorem enabled_items_call_their_handler :
  forall (env : CommitListItem.Environment) (props : CommitListItem.ICommitProps)
         (item : CommitListItem.IMenuItem),
    item ∈ CommitListItem.menuItems env props ->
    (CommitListItem.action item = Some CommitListItem.RevertAction ->
     (forall handler,
         CommitListItem.onRevertCommit props = Some handler ->
         CommitListItem.enabled item = Some true
         /\ CommitListItem.runAction CommitListItem.RevertAction props
            = [CommitListItem.CallOnRevertCommit handler
                 (CommitListItem.commit props)])
     /\ (CommitListItem.onRevertCommit props = None ->
         CommitListItem.enabled item = Some false
         /\ CommitListItem.runAction CommitListItem.RevertAction props = []))
    /\ (CommitListItem.action item = Some CommitListItem.CreateTagAction ->
        (forall handler,
            CommitListItem.onCreateTag props = Some handler ->
            CommitListItem.enabled item = Some true
            /\ CommitListItem.runAction CommitListItem.CreateTagAction props
               = [CommitListItem.CallOnCreateTag handler
                    (CommitListItem.sha (CommitListItem.commit props))])
        /\ (CommitListItem.onCreateTag props = None ->
            CommitListItem.enabled item = Some false
            /\ CommitListItem.runAction CommitListItem.CreateTagAction props = [])).
Proof.
  intros env props item Hitem. unfold CommitListItem.menuItems in Hitem.
  destruct (CommitListItem.enableGitTagsCreation env); cbn in Hitem;
    rewrite !elem_of_cons, elem_of_nil in Hitem;
    repeat destruct Hitem as [->|Hitem]; try done; cbn;
    (split; [intros Ha|intros Ha]; try discriminate Ha);
    unfold CommitListItem.onCreateTagMethod;
    (split; [intros handler H|intros H]); by rewrite H.
Qed.

Lemma enabled_items_call_their_handler_witness :
  CommitListItem.enabled
    (CommitListItem.mkMenuItem (Some "Revert this commit")
       (Some CommitListItem.RevertAction) (Some true) None) = Some true
  /\ CommitListItem.runAction CommitListItem.RevertAction sampleProps
     = [CommitListItem.CallOnRevertCommit 0%nat sampleCommit].
Proof.
  apply (enabled_items_call_their_handler sampleEnvironment sampleProps
           (CommitListItem.mkMenuItem (Some "Revert this commit")
              (Some CommitListItem.RevertAction) (Some true) None)).
  - cbn. apply elem_of_cons. by left.
  - reflexivity.
  - reflexivity.
Defined.

(** X13.  The item that opens the commit on GitHub is enabled exactly when
    the commit is not local and the props carry a GitHub repository; its
    label says "Enterprise" exactly when that repository's endpoint is not
    the one of GitHub.com.  Whether the handler [onViewCommitOnGitHub] was
    passed does not count: without it, choosing the item does nothing, even
    when the item is enabled. *)
Theorem view_on_github_item :
  forall (env : CommitListItem.Environment) (props : CommitListItem.ICommitProps)
         (item : CommitListItem.IMenuItem),
    item ∈ CommitListItem.menuItems env props ->
    CommitListItem.action item = Some CommitListItem.ViewOnGitHubAction ->
    (CommitListItem.enabled item = Some true
     <-> CommitListItem.isLocal props = false
         /\ CommitListItem.gitHubRepository props <> None)
    /\ (CommitListItem.label item = Some "View on GitHub Enterprise"
        <-> exists gh, CommitListItem.gitHubRepository props = Some gh
                       /\ CommitListItem.endpoint env gh
                          <> CommitListItem.getDotComAPIEndpoint env)
    /\ (CommitListItem.onViewCommitOnGitHub props = None ->
        CommitListItem.runAction CommitListItem.ViewOnGitHubAction props = []).
Proof.
  intros env props item Hitem Ha.
  assert (Hview : item
                  = CommitListItem.mkMenuItem
                      (Some (CommitListItem.viewOnGitHubLabel env props))
                      (Some CommitListItem.ViewOnGitHubAction)
                      (Some (negb (CommitListItem.isLocal props)
                             && CommitListItem.isPresent
                                  (CommitListItem.gitHubRepository props)))
                      None).
  { unfold CommitListItem.menuItems in Hitem.
    destruct (CommitListItem.enableGitTagsCreation env); cbn in Hitem;
      rewrite !elem_of_cons, elem_of_nil in Hitem;
      repeat destruct Hitem as [->|Hitem]; try done; discriminate Ha. }
  subst item. cbn. split; [|split].
  - destruct (CommitListItem.isLocal props),
      (CommitListItem.gitHubRepository props); cbn; split;
      try done; try (by intros [? ?]); by intros [= ?].
  - unfold CommitListItem.viewOnGitHubLabel.
    destruct (CommitListItem.gitHubRepository props) as [gh|].
    + destruct (String.eqb_spec (CommitListItem.endpoint env gh)
                  (CommitListItem.getDotComAPIEndpoint env)) as [Heq|Hne]; cbn.
      * split; [discriminate|]. intros [g [[= <-] H]]. done.
      * split; [|done]. intros _. by exists gh.
    + split; [discriminate|]. by intros [g [? _]].
  - intros H. unfold CommitListItem.onViewOnGitHub. by rewrite H.
Qed.

Lemma view_on_github_item_witness :
  CommitListItem.enabled
    (CommitListItem.mkMenuItem (Some "View on GitHub")
       (Some CommitListItem.ViewOnGitHubAction) (Some true) None) = Some true
  /\ CommitListItem.runAction CommitListItem.ViewOnGitHubAction sampleProps = [].
Proof.
  pose proof (view_on_github_item sampleEnvironment sampleProps
                (CommitListItem.mkMenuItem (Some "View on GitHub")
                   (Some CommitListItem.ViewOnGitHubAction) (Some true) None))
    as H.
  destruct H as [Henabled [_ Hinert]].
  - cbn. do 4 (apply elem_of_cons; right). apply elem_of_cons. by left.
  - reflexivity.
  - split.
    + apply Henabled. split; [reflexivity|discriminate].
    + apply Hinert. reflexivity.
Defined.

(** X14.  Of the tags of a commit the row shows the first and whether there
    are more: [renderCommitListItemTags] gives the same for two arrays of
    tags exactly when they have the same first tag and the same number of
    tags, and it gives [null] exactly for the empty array. *)
Theorem tags_shown_by_first_and_count :
  forall tags tags' : list string,
    (CommitListItem.renderCommitListItemTags tags
     = CommitListItem.renderCommitListItemTags tags'
     <-> List.hd_error tags = List.hd_error tags'
         /\ List.length tags = List.length tags')
    /\ (CommitListItem.renderCommitListItemTags tags = CommitListItem.RNull
        <-> tags = []).
Proof.
  intros tags tags'. split.
  - destruct tags as [|t ts], tags' as [|t' ts']; cbn.
    + done.
    + split; [done|]. by intros [? ?].
    + split; [done|]. by intros [? ?].
    + split.
      * intros H. injection H as Hfirst _ Hmore. split; [by rewrite Hfirst|].
        destruct ts as [|? ?], ts' as [|? ?]; cbn in *; try done.
        injection Hmore as Hlen. lia.
      * intros [[= ->] [= Hlen]].
        destruct ts, ts'; cbn in *; try done. by rewrite Hlen.
  - destruct tags; cbn; split; done.
Qed.
